(** * SubjectiveCodexDataSource: the message-processing pipeline

    A shallow embedding of [SubjectiveCodexDataSource.py]: the executable
    locator, the authenticator, the command builder, the event-stream parser
    and [_process_message], followed by the properties of the pipeline.

    Modelling conventions.
    - Text is [string]; a character stands for the Python code point of the
      same number, so the alphabet is U+0000..U+00FF; an escape of the
      decoder for a code point beyond it is kept as a question mark.
    - The operating system (search path, file system, child processes) is a
      record of oracles, [World]; every call of a method may see another one.
    - The adapter instance, [os.environ] and the log are one [State]; methods
      are computations in a state-and-exception monad [M].
    - The configuration has the types its connection form declares: texts
      for the authentication method, the credential, the model, the sandbox
      mode and the working directory, whole seconds for the timeout,
      booleans for the two switches.
    - [os.environ] is a finite map; assigning a variable raises [ValueError]
      when the value holds a NUL character, as [putenv] does on POSIX, and
      succeeds otherwise.
    - Only [Exception] subclasses are modelled ([KeyboardInterrupt] and
      [SystemExit] are not), and the logger never fails.
    - The limits of the interpreter are not modelled: [str] and [json.loads]
      are taken within the limit on the digits of an integer and within the
      recursion limit, where [str] returns and [json.loads] either returns
      or raises [JSONDecodeError]. *)

From Stdlib Require Import ZArith Ascii Bool Lia.
From stdpp Require Import base option list strings gmap pretty.

#[local] Set Warnings "-register-all".

Local Open Scope Z_scope.
Local Open Scope list_scope.
Local Open Scope stdpp_scope.

(** ** Text primitives of Python's [str] *)

Module Text.

Definition code (c : ascii) : N := N_of_ascii c.

Definition nl : ascii := "010"%char.
Definition dquote : ascii := "034"%char.
Definition squote : ascii := "039"%char.
Definition backslash : ascii := "092"%char.

Definition newline : string := String nl EmptyString.

(** [bool(s)] for a [str]: the empty text is false. *)
Definition truthy (s : string) : bool :=
  match s with EmptyString => false | String _ _ => true end.

(** [str.isspace] on one character of the alphabet. *)
Definition isspace (c : ascii) : bool :=
  let n := code c in
  ((9 <=? n) && (n <=? 13) || (28 <=? n) && (n <=? 32)
   || (n =? 133) || (n =? 160))%N.

Fixpoint lstrip (s : string) : string :=
  match s with
  | EmptyString => EmptyString
  | String c r => if isspace c then lstrip r else s
  end.

Definition rstrip (s : string) : string := String.rev (lstrip (String.rev s)).

(** [s.strip()] *)
Definition strip (s : string) : string := rstrip (lstrip s).

(** [s.split(sep)] for a one-character separator: never the empty list. *)
Fixpoint split (sep : ascii) (s : string) : list string :=
  match s with
  | EmptyString => [EmptyString]
  | String c r =>
      if Ascii.eqb c sep then EmptyString :: split sep r
      else match split sep r with
           | h :: t => String c h :: t
           | [] => [String c EmptyString]
           end
  end.

(** [sep.join(parts)] *)
Fixpoint join (sep : string) (parts : list string) : string :=
  match parts with
  | [] => EmptyString
  | [p] => p
  | p :: rest => p +:+ sep +:+ join sep rest
  end.

Fixpoint starts_with (p s : string) : option string :=
  match p, s with
  | EmptyString, _ => Some s
  | String a p', String b s' =>
      if Ascii.eqb a b then starts_with p' s' else None
  | String _ _, EmptyString => None
  end.

Fixpoint contains (c : ascii) (s : string) : bool :=
  match s with
  | EmptyString => false
  | String d r => Ascii.eqb c d || contains c r
  end.

(** Whether a text holds the character U+0000. *)
Definition has_nul (s : string) : bool := contains Ascii.zero s.

Fixpoint concat_map (f : ascii -> string) (s : string) : string :=
  match s with
  | EmptyString => EmptyString
  | String c r => f c +:+ concat_map f r
  end.

(** Writes a text with apostrophes where the double quotes go. *)
Definition dq (s : string) : string :=
  concat_map (fun c => String (if Ascii.eqb c squote then dquote else c)
                              EmptyString) s.

End Text.

(** ** The decoder behind [json.loads]

    Python's standard decoder ([json.decoder], [json.scanner]) on the
    alphabet above.  Integers are unbounded, a float keeps its lexeme, an
    object becomes a [dict] (insertion order, a repeated key keeps its place
    and takes the later value).  A [\uXXXX] escape beyond U+00FF has no
    character here and is kept as [out_of_alphabet]; the interpreter's
    recursion limit is not modelled. *)

Module Json.
Import Text.

Inductive json : Type :=
| JNull
| JBool (b : bool)
| JInt (n : Z)
| JFloat (lexeme : string)
| JStr (s : string)
| JList (items : list json)
| JDict (items : list (string * json)).

(** [d[k] = v] on the items of a dict. *)
Fixpoint dict_set (k : string) (v : json) (d : list (string * json))
  : list (string * json) :=
  match d with
  | [] => [(k, v)]
  | (k', v') :: rest =>
      if String.eqb k k' then (k', v) :: rest
      else (k', v') :: dict_set k v rest
  end.

(** [dict(pairs)] *)
Definition dict_of_pairs (pairs : list (string * json)) : list (string * json) :=
  fold_left (fun d kv => dict_set (fst kv) (snd kv) d) pairs [].

Fixpoint dict_lookup (k : string) (d : list (string * json)) : option json :=
  match d with
  | [] => None
  | (k', v) :: rest => if String.eqb k k' then Some v else dict_lookup k rest
  end.

(** Outcome of a scanner: a value and the unread text, a decode error, or
    recursion fuel used up. *)
Inductive scan (A : Type) : Type :=
| Scanned (a : A) (rest : string)
| Invalid
| Exhausted.
Arguments Scanned {A} a rest.
Arguments Invalid {A}.
Arguments Exhausted {A}.

(** The characters of [WHITESPACE]: space, tab, line feed, carriage return. *)
Definition is_ws (c : ascii) : bool :=
  let n := code c in ((n =? 32) || (n =? 9) || (n =? 10) || (n =? 13))%N.

Fixpoint skip_ws (s : string) : string :=
  match s with
  | EmptyString => EmptyString
  | String c r => if is_ws c then skip_ws r else s
  end.

Definition is_digit (c : ascii) : bool :=
  let n := code c in ((48 <=? n) && (n <=? 57))%N.

Definition hex_digit (c : ascii) : option N :=
  let n := code c in
  if ((48 <=? n) && (n <=? 57))%N then Some (n - 48)%N
  else if ((65 <=? n) && (n <=? 70))%N then Some (n - 55)%N
  else if ((97 <=? n) && (n <=? 102))%N then Some (n - 87)%N
  else None.

(** [_decode_uXXXX] *)
Definition hex4 (a b c d : ascii) : option N :=
  match hex_digit a, hex_digit b, hex_digit c, hex_digit d with
  | Some x, Some y, Some z, Some w => Some (((x * 16 + y) * 16 + z) * 16 + w)%N
  | _, _, _, _ => None
  end.

Definition out_of_alphabet : ascii := "?"%char.

(** [chr(uni)] *)
Definition chr (uni : N) : ascii :=
  if (uni <=? 255)%N then ascii_of_N uni else out_of_alphabet.

Definition is_high_surrogate (u : N) : bool := ((55296 <=? u) && (u <=? 56319))%N.
Definition is_low_surrogate (u : N) : bool := ((56320 <=? u) && (u <=? 57343))%N.

(** The [BACKSLASH] table. *)
Definition unescape (e : ascii) : option ascii :=
  let n := code e in
  if (n =? 34)%N then Some dquote
  else if (n =? 92)%N then Some backslash
  else if (n =? 47)%N then Some "/"%char
  else if (n =? 98)%N then Some "008"%char
  else if (n =? 102)%N then Some "012"%char
  else if (n =? 110)%N then Some "010"%char
  else if (n =? 114)%N then Some "013"%char
  else if (n =? 116)%N then Some "009"%char
  else None.

(** [scanstring(s, end, strict=True)], entered after the opening quote;
    [acc] holds the characters read so far, last one first. *)
Fixpoint scanstring (s : string) (acc : string) : scan string :=
  match s with
  | EmptyString => Invalid
  | String c r =>
      if Ascii.eqb c dquote then Scanned (String.rev acc) r
      else if Ascii.eqb c backslash then
        match r with
        | EmptyString => Invalid
        | String e r1 =>
            if Ascii.eqb e "u"%char then
              match r1 with
              | String h1 (String h2 (String h3 (String h4 r2))) =>
                  match hex4 h1 h2 h3 h4 with
                  | None => Invalid
                  | Some uni =>
                      if is_high_surrogate uni then
                        match r2 with
                        | String b (String u r3) =>
                            if Ascii.eqb b backslash && Ascii.eqb u "u"%char then
                              match r3 with
                              | String g1 (String g2 (String g3 (String g4 r4))) =>
                                  match hex4 g1 g2 g3 g4 with
                                  | None => Invalid
                                  | Some uni2 =>
                                      if is_low_surrogate uni2
                                      then scanstring r4 (String out_of_alphabet acc)
                                      else scanstring r2 (String (chr uni) acc)
                                  end
                              | _ => Invalid
                              end
                            else scanstring r2 (String (chr uni) acc)
                        | _ => scanstring r2 (String (chr uni) acc)
                        end
                      else scanstring r2 (String (chr uni) acc)
                  end
              | _ => Invalid
              end
            else
              match unescape e with
              | Some ch => scanstring r1 (String ch acc)
              | None => Invalid
              end
        end
      else if (code c <? 32)%N then Invalid
      else scanstring r (String c acc)
  end.

(** Longest run of decimal digits at the head of [s]. *)
Fixpoint span_digits (s : string) : string * string :=
  match s with
  | EmptyString => (EmptyString, EmptyString)
  | String c r =>
      if is_digit c then let '(d, rest) := span_digits r in (String c d, rest)
      else (EmptyString, s)
  end.

Fixpoint digits_value (s : string) (acc : N) : N :=
  match s with
  | EmptyString => acc
  | String c r => digits_value r (acc * 10 + (code c - 48))%N
  end.

(** First group of [NUMBER_RE]: an optional minus sign, then a lone zero or
    a digit from 1 to 9 followed by digits. *)
Definition match_integer (s : string) : option (string * string) :=
  let '(sign, body) :=
    match s with
    | String c r => if Ascii.eqb c "-"%char then (String c EmptyString, r)
                    else (EmptyString, s)
    | EmptyString => (EmptyString, s)
    end in
  match body with
  | String c r =>
      if Ascii.eqb c "0"%char then Some (sign +:+ String c EmptyString, r)
      else if is_digit c then
        let '(d, rest) := span_digits r in Some (sign +:+ String c d, rest)
      else None
  | EmptyString => None
  end.

(** Second group of [NUMBER_RE]: a dot and at least one digit, or nothing. *)
Definition match_frac (s : string) : string * string :=
  match s with
  | String c r =>
      if Ascii.eqb c "."%char then
        match span_digits r with
        | (EmptyString, _) => (EmptyString, s)
        | (d, rest) => (String c d, rest)
        end
      else (EmptyString, s)
  | EmptyString => (EmptyString, s)
  end.

(** Third group of [NUMBER_RE]: e or E, an optional sign and at least one
    digit, or nothing. *)
Definition match_exp (s : string) : string * string :=
  match s with
  | String c r =>
      if Ascii.eqb c "e"%char || Ascii.eqb c "E"%char then
        let '(sign, body) :=
          match r with
          | String g r' =>
              if Ascii.eqb g "-"%char || Ascii.eqb g "+"%char
              then (String g EmptyString, r') else (EmptyString, r)
          | EmptyString => (EmptyString, r)
          end in
        match span_digits body with
        | (EmptyString, _) => (EmptyString, s)
        | (d, rest) => (String c (sign +:+ d), rest)
        end
      else (EmptyString, s)
  | EmptyString => (EmptyString, s)
  end.

(** [int(integer)] *)
Definition parse_int (lexeme : string) : Z :=
  match lexeme with
  | String c r =>
      if Ascii.eqb c "-"%char then (- Z.of_N (digits_value r 0))%Z
      else Z.of_N (digits_value lexeme 0)
  | EmptyString => 0%Z
  end.

(** [match_number] and the choice between [parse_int] and [parse_float]. *)
Definition match_number (s : string) : option (json * string) :=
  match match_integer s with
  | None => None
  | Some (integer, r1) =>
      let '(frac, r2) := match_frac r1 in
      let '(exp, r3) := match_exp r2 in
      if truthy frac || truthy exp
      then Some (JFloat (integer +:+ frac +:+ exp), r3)
      else Some (JInt (parse_int integer), r3)
  end.

Section Containers.
(** [scan_once], as [JSONArray] and [JSONObject] receive it. *)
Variable scan_once : string -> scan json.

(** The [while True] loop of [JSONArray]; [n] bounds its iterations. *)
Fixpoint array_items (n : nat) (s : string) (values : list json)
  : scan (list json) :=
  match n with
  | O => Exhausted
  | S n' =>
      match scan_once s with
      | Scanned value rest =>
          match skip_ws rest with
          | String c r =>
              if Ascii.eqb c "]"%char then Scanned (values ++ [value]) r
              else if Ascii.eqb c ","%char
              then array_items n' (skip_ws r) (values ++ [value])
              else Invalid
          | EmptyString => Invalid
          end
      | Invalid => Invalid
      | Exhausted => Exhausted
      end
  end.

Definition JSONArray (n : nat) (s : string) : scan (list json) :=
  match skip_ws s with
  | String c r =>
      if Ascii.eqb c "]"%char then Scanned [] r
      else array_items n (String c r) []
  | EmptyString => array_items n EmptyString []
  end.

(** The [while True] loop of [JSONObject], entered after the quote that
    opens a key. *)
Fixpoint object_items (n : nat) (s : string) (pairs : list (string * json))
  : scan (list (string * json)) :=
  match n with
  | O => Exhausted
  | S n' =>
      match scanstring s EmptyString with
      | Scanned key rest =>
          match skip_ws rest with
          | String c r =>
              if Ascii.eqb c ":"%char then
                match scan_once (skip_ws r) with
                | Scanned value rest' =>
                    match skip_ws rest' with
                    | String c' r' =>
                        if Ascii.eqb c' "}"%char
                        then Scanned (dict_of_pairs (pairs ++ [(key, value)])) r'
                        else if Ascii.eqb c' ","%char then
                          match skip_ws r' with
                          | String q r'' =>
                              if Ascii.eqb q dquote
                              then object_items n' r'' (pairs ++ [(key, value)])
                              else Invalid
                          | EmptyString => Invalid
                          end
                        else Invalid
                    | EmptyString => Invalid
                    end
                | Invalid => Invalid
                | Exhausted => Exhausted
                end
              else Invalid
          | EmptyString => Invalid
          end
      | Invalid => Invalid
      | Exhausted => Exhausted
      end
  end.

Definition JSONObject (n : nat) (s : string) : scan (list (string * json)) :=
  match skip_ws s with
  | String c r =>
      if Ascii.eqb c "}"%char then Scanned [] r
      else if Ascii.eqb c dquote then object_items n r []
      else Invalid
  | EmptyString => Invalid
  end.
End Containers.

Definition literal (word : string) (v : json) (s : string) : option (json * string) :=
  match starts_with word s with
  | Some rest => Some (v, rest)
  | None => None
  end.

(** [_scan_once(string, idx)]; [fuel] bounds the nesting depth. *)
Fixpoint scan_once (fuel : nat) (s : string) : scan json :=
  match fuel with
  | O => Exhausted
  | S fuel' =>
      match s with
      | EmptyString => Invalid
      | String c r =>
          if Ascii.eqb c dquote then
            match scanstring r EmptyString with
            | Scanned str rest => Scanned (JStr str) rest
            | Invalid => Invalid
            | Exhausted => Exhausted
            end
          else if Ascii.eqb c "{"%char then
            match JSONObject (scan_once fuel') fuel' r with
            | Scanned d rest => Scanned (JDict d) rest
            | Invalid => Invalid
            | Exhausted => Exhausted
            end
          else if Ascii.eqb c "["%char then
            match JSONArray (scan_once fuel') fuel' r with
            | Scanned l rest => Scanned (JList l) rest
            | Invalid => Invalid
            | Exhausted => Exhausted
            end
          else
            match literal "null" JNull s with
            | Some (v, rest) => Scanned v rest
            | None =>
            match literal "true" (JBool true) s with
            | Some (v, rest) => Scanned v rest
            | None =>
            match literal "false" (JBool false) s with
            | Some (v, rest) => Scanned v rest
            | None =>
            match match_number s with
            | Some (v, rest) => Scanned v rest
            | None =>
            match literal "NaN" (JFloat "NaN") s with
            | Some (v, rest) => Scanned v rest
            | None =>
            match literal "Infinity" (JFloat "Infinity") s with
            | Some (v, rest) => Scanned v rest
            | None =>
            match literal "-Infinity" (JFloat "-Infinity") s with
            | Some (v, rest) => Scanned v rest
            | None => Invalid
            end end end end end end end
      end
  end.

(** [json.loads(s)], within the limits of the interpreter: [None] stands for
    [JSONDecodeError]. *)
Definition loads (s : string) : option json :=
  match scan_once (S (String.length s)) (skip_ws s) with
  | Scanned obj rest =>
      match skip_ws rest with
      | EmptyString => Some obj
      | String _ _ => None
      end
  | Invalid | Exhausted => None
  end.

End Json.

Import Text Json.

(** ** Python objects a caller may pass as the message

    [None], [bool], [int], [str], [list] and [dict] with text keys; [py_str]
    is the builtin [str] on them. *)

Module Py.

Inductive pyobj : Type :=
| PNone
| PBool (b : bool)
| PInt (n : Z)
| PStr (s : string)
| PList (items : list pyobj)
| PDict (items : list (string * pyobj)).

Definition hex_char (n : N) : ascii :=
  if (n <? 10)%N then ascii_of_N (48 + n) else ascii_of_N (87 + n).

(** [str.isprintable] on one character of the alphabet. *)
Definition isprintable (c : ascii) : bool :=
  let n := code c in
  ((32 <=? n) && (n <? 127) || (161 <=? n) && negb (n =? 173))%N.

Definition repr_char (quote c : ascii) : string :=
  let n := code c in
  if Ascii.eqb c quote || Ascii.eqb c backslash
  then String backslash (String c EmptyString)
  else if (n =? 9)%N then String backslash "t"
  else if (n =? 10)%N then String backslash "n"
  else if (n =? 13)%N then String backslash "r"
  else if isprintable c then String c EmptyString
  else String backslash
         (String "x"%char
            (String (hex_char (n / 16)) (String (hex_char (n mod 16)) EmptyString))).

(** [repr(s)] for a [str]. *)
Definition repr_str (s : string) : string :=
  let quote := if contains squote s && negb (contains dquote s)
               then dquote else squote in
  String quote (concat_map (repr_char quote) s +:+ String quote EmptyString).

Fixpoint py_repr (o : pyobj) : string :=
  match o with
  | PNone => "None"
  | PBool true => "True"
  | PBool false => "False"
  | PInt n => pretty n
  | PStr s => repr_str s
  | PList l => "[" +:+ join ", " (map py_repr l) +:+ "]"
  | PDict d =>
      "{" +:+ join ", "
            ((fix items (d : list (string * pyobj)) : list string :=
                match d with
                | [] => []
                | (k, v) :: rest => (repr_str k +:+ ": " +:+ py_repr v) :: items rest
                end) d)
      +:+ "}"
  end.

(** [str(o)], within the limits of the interpreter. *)
Definition py_str (o : pyobj) : string :=
  match o with
  | PStr s => s
  | _ => py_repr o
  end.

(** [d.get(key, default)] on the items of a dict. *)
Fixpoint get (key : string) (default : pyobj) (d : list (string * pyobj)) : pyobj :=
  match d with
  | [] => default
  | (k, v) :: rest => if String.eqb key k then v else get key default rest
  end.

End Py.

Import Py.

(** ** Exceptions, the operating system and the adapter's state *)

Inductive exn : Type :=
| RuntimeError (msg : string)
| AttributeError (msg : string)
| TypeError (msg : string)
| ValueError (msg : string)
| TimeoutExpired (cmd : list string) (timeout : Z)
| OtherError (msg : string).
  (* any other [Exception], e.g. [FileNotFoundError], with its [str] *)

(** [str(e)] *)
Definition exn_str (e : exn) : string :=
  match e with
  | RuntimeError msg | AttributeError msg | TypeError msg | ValueError msg
  | OtherError msg => msg
  | TimeoutExpired cmd t =>
      "Command '" +:+ py_repr (PList (map PStr cmd)) +:+ "' timed out after "
      +:+ pretty t +:+ " seconds"
  end.

Inductive outcome (A : Type) : Type :=
| Return (a : A)
| Raise (e : exn).
Arguments Return {A} a.
Arguments Raise {A} e.

Definition obind {A B : Type} (c : outcome A) (k : A -> outcome B) : outcome B :=
  match c with
  | Return a => k a
  | Raise e => Raise e
  end.

Notation "'let!' x ':=' c 'in' k" := (obind c (fun x => k))
  (at level 10, x name, c at level 100, k at level 200, only parsing).

(** What [subprocess.run(..., capture_output=True, text=True)] returns. *)
Record CompletedProcess : Type := mkCompleted {
  returncode : Z;
  stdout : string;
  stderr : string
}.

Record World : Type := mkWorld {
  which : string -> option string;          (* shutil.which *)
  expanduser : string -> string;            (* os.path.expanduser *)
  isfile : string -> bool;                  (* os.path.isfile *)
  isdir : string -> bool;                   (* os.path.isdir *)
  getcwd : string;                          (* os.getcwd() *)
  (* subprocess.run(argv, env=, cwd=, timeout=) *)
  run : list string -> gmap string string -> option string -> Z
        -> outcome CompletedProcess
}.

(** What a call does to the outside, in the order it happens. *)
Inductive effect : Type :=
| Which (name : string)
| IsFile (path : string)
| IsDir (path : string)
| Spawn (argv : list string) (timeout : Z)
| SetEnv (name value : string)
| Log (msg : string).

Record State : Type := mkState {
  auth_method : string;
  api_key : string;
  model : string;
  sandbox_mode : string;
  working_directory : string;
  timeout : Z;
  full_auto : bool;
  enable_search : bool;
  _authenticated : bool;
  _codex_path : option string;
  environ : gmap string string;             (* os.environ *)
  trace : list effect
}.

Definition set_authenticated (b : bool) (s : State) : State :=
  mkState (auth_method s) (api_key s) (model s) (sandbox_mode s)
          (working_directory s) (timeout s) (full_auto s) (enable_search s)
          b (_codex_path s) (environ s) (trace s).

Definition set_codex_path (p : option string) (s : State) : State :=
  mkState (auth_method s) (api_key s) (model s) (sandbox_mode s)
          (working_directory s) (timeout s) (full_auto s) (enable_search s)
          (_authenticated s) p (environ s) (trace s).

Definition set_environ (e : gmap string string) (s : State) : State :=
  mkState (auth_method s) (api_key s) (model s) (sandbox_mode s)
          (working_directory s) (timeout s) (full_auto s) (enable_search s)
          (_authenticated s) (_codex_path s) e (trace s).

Definition record (e : effect) (s : State) : State :=
  mkState (auth_method s) (api_key s) (model s) (sandbox_mode s)
          (working_directory s) (timeout s) (full_auto s) (enable_search s)
          (_authenticated s) (_codex_path s) (environ s) (trace s ++ [e]).

(** ** The monad of methods *)

Definition M (A : Type) : Type := State -> outcome A * State.

Definition ret {A : Type} (a : A) : M A := fun s => (Return a, s).
Definition raise {A : Type} (e : exn) : M A := fun s => (Raise e, s).
Definition bind {A B : Type} (c : M A) (k : A -> M B) : M B :=
  fun s => match c s with
           | (Return a, s') => k a s'
           | (Raise e, s') => (Raise e, s')
           end.
Definition get : M State := fun s => (Return s, s).
Definition modify (f : State -> State) : M unit := fun s => (Return tt, f s).
Definition lift {A : Type} (c : outcome A) : M A := fun s => (c, s).

(** [try: body except Exception as e: handler(e)] *)
Definition try_except {A : Type} (body : M A) (handler : exn -> M A) : M A :=
  fun s => match body s with
           | (Return a, s') => (Return a, s')
           | (Raise e, s') => handler e s'
           end.

Notation "x <- c ;; k" := (bind c (fun x => k))
  (at level 100, c at next level, right associativity, only parsing).
Notation "c ;; k" := (bind c (fun _ => k))
  (at level 100, right associativity, only parsing).

Definition emit (e : effect) : M unit := modify (record e).

(** [BBLogger.log(msg)] *)
Definition log (msg : string) : M unit := emit (Log msg).

(** [os.environ[name] = value] for a literal [name]: the assignment is
    refused, and nothing is changed, when the value holds a NUL character. *)
Definition environ_setitem (name value : string) : M unit :=
  if has_nul value then raise (ValueError "embedded null byte")
  else
    emit (SetEnv name value) ;;
    modify (fun s => set_environ (<[name := value]> (environ s)) s).

(** [bool(x)] for [x] a text or [None]. *)
Definition opt_truthy (o : option string) : bool :=
  match o with
  | Some p => truthy p
  | None => false
  end.

(** ** The adapter *)

Record Params : Type := mkParams {
  p_auth_method : option string;
  p_api_key : option string;
  p_model : option string;
  p_sandbox_mode : option string;
  p_working_directory : option string;
  p_timeout : option Z;
  p_full_auto : option bool;
  p_enable_search : option bool
}.

(** [__init__]: the configuration read from [params], nothing authenticated,
    no path cached; [env] is the environment of the process. *)
Definition __init__ (w : World) (params : Params) (env : gmap string string) : State :=
  {| auth_method := from_option id "api_key" (p_auth_method params);
     api_key := from_option id EmptyString (p_api_key params);
     model := from_option id "o4-mini" (p_model params);
     sandbox_mode := from_option id "read-only" (p_sandbox_mode params);
     working_directory := from_option id (getcwd w) (p_working_directory params);
     timeout := from_option id 300 (p_timeout params);
     full_auto := from_option id false (p_full_auto params);
     enable_search := from_option id false (p_enable_search params);
     _authenticated := false;
     _codex_path := None;
     environ := env;
     trace := [] |}.

Definition common_paths (w : World) : list string :=
  [ expanduser w "~/.local/bin/codex";
    expanduser w "~/bin/codex";
    "/usr/local/bin/codex";
    "C:\Program Files\codex\codex.exe";
    expanduser w "~\AppData\Local\Programs\codex\codex.exe" ].

(** The [for path in common_paths] loop of [_find_codex_cli]. *)
Fixpoint first_existing (w : World) (paths : list string) : M (option string) :=
  match paths with
  | [] => ret None
  | path :: rest =>
      emit (IsFile path) ;;
      if isfile w path
      then modify (set_codex_path (Some path)) ;; ret (Some path)
      else first_existing w rest
  end.

Definition _find_codex_cli (w : World) : M (option string) :=
  self <- get ;;
  if opt_truthy (_codex_path self) then ret (_codex_path self)
  else
    emit (Which "codex") ;;
    let codex_path := which w "codex" in
    if opt_truthy codex_path
    then modify (set_codex_path codex_path) ;; ret codex_path
    else first_existing w (common_paths w).

Definition _trigger_oauth_login (w : World) : M bool :=
  codex_path <- _find_codex_cli w ;;
  if negb (opt_truthy codex_path) then ret false
  else
    try_except
      (log "Starting Codex OAuth login (device auth)..." ;;
       self <- get ;;
       let argv := [from_option id EmptyString codex_path; "login"; "--device-auth"] in
       emit (Spawn argv 120) ;;
       result <- lift (run w argv (environ self) None 120) ;;
       if (returncode result =? 0)%Z then
         modify (set_authenticated true) ;;
         let output := strip (stdout result) in
         let output :=
           if truthy (stderr result)
           then strip (join newline [output; strip (stderr result)])
           else output in
         (if truthy output
          then log ("Codex login output:" +:+ newline +:+ output)
          else ret tt) ;;
         log "Codex OAuth login successful" ;;
         ret true
       else
         (if truthy (stderr result)
          then log ("Codex login error:" +:+ newline +:+ strip (stderr result))
          else ret tt) ;;
         log "Codex OAuth login failed" ;;
         ret false)
      (fun e =>
         match e with
         | TimeoutExpired _ _ => log "Codex OAuth login timed out" ;; ret false
         | _ => log ("Error during Codex OAuth login: " +:+ exn_str e) ;; ret false
         end).

Definition _ensure_authenticated (w : World) : M bool :=
  self <- get ;;
  if _authenticated self then ret true
  else
    codex_path <- _find_codex_cli w ;;
    if negb (opt_truthy codex_path) then
      log "Codex CLI not found. Please install it first." ;;
      ret false
    else if String.eqb (auth_method self) "api_key" && truthy (api_key self) then
      environ_setitem "OPENAI_API_KEY" (api_key self) ;;
      modify (set_authenticated true) ;;
      log "Using API key authentication for Codex CLI" ;;
      ret true
    else if String.eqb (auth_method self) "oauth" then
      log "OAuth authentication required. Triggering Codex login..." ;;
      _trigger_oauth_login w
    else ret false.

Definition _build_command (w : World) (message : string) : M (list string) :=
  codex_path <- _find_codex_cli w ;;
  if negb (opt_truthy codex_path) then raise (RuntimeError "Codex CLI not found")
  else
    self <- get ;;
    let cmd := [from_option id EmptyString codex_path; "exec"] in
    let cmd := cmd ++ ["--json"] in
    let cmd := if truthy (model self) then cmd ++ ["--model"; model self] else cmd in
    let cmd := if truthy (sandbox_mode self)
               then cmd ++ ["--sandbox"; sandbox_mode self] else cmd in
    let cmd := if full_auto self then cmd ++ ["--full-auto"] else cmd in
    let cmd := if enable_search self then cmd ++ ["--search"] else cmd in
    let cmd := if truthy (working_directory self)
               then cmd ++ ["--cd"; working_directory self] else cmd in
    let cmd := cmd ++ [message] in
    ret cmd.

(** ** The event-stream parser *)

Definition type_name (v : json) : string :=
  match v with
  | JNull => "NoneType"
  | JBool _ => "bool"
  | JInt _ => "int"
  | JFloat _ => "float"
  | JStr _ => "str"
  | JList _ => "list"
  | JDict _ => "dict"
  end.

(** [obj.get(key, default)]: only a dict has the method. *)
Definition py_get (obj : json) (key : string) (default : json) : outcome json :=
  match obj with
  | JDict d => Return (from_option id default (dict_lookup key d))
  | _ => Raise (AttributeError
                  ("'" +:+ type_name obj +:+ "' object has no attribute 'get'"))
  end.

(** [v == text] *)
Definition eq_text (v : json) (text : string) : bool :=
  match v with
  | JStr s => String.eqb s text
  | _ => false
  end.

(** The items [for item in v] runs through: the elements of a list, the keys
    of a dict, the characters of a text. *)
Definition py_iter (v : json) : outcome (list json) :=
  match v with
  | JList l => Return l
  | JDict d => Return (map (fun kv => JStr (fst kv)) d)
  | JStr s => Return (map (fun c => JStr (String c EmptyString))
                          (String.list_ascii_of_string s))
  | _ => Raise (TypeError ("'" +:+ type_name v +:+ "' object is not iterable"))
  end.

(** [acc += v] for [acc] a text. *)
Definition iadd_text (acc : string) (v : json) : outcome string :=
  match v with
  | JStr t => Return (acc +:+ t)
  | _ => Raise (TypeError
                  (dq ("can only concatenate str (not '" +:+ type_name v
                       +:+ "') to str")))
  end.

(** The inner loop, [for item in content]. *)
Fixpoint collect_text (content : list json) (assistant_message : string)
  : outcome string :=
  match content with
  | [] => Return assistant_message
  | item :: rest =>
      let! ty := py_get item "type" JNull in
      if eq_text ty "text" then
        let! text := py_get item "text" (JStr EmptyString) in
        let! assistant_message := iadd_text assistant_message text in
        collect_text rest assistant_message
      else collect_text rest assistant_message
  end.

(** The outer loop, [for line in output.strip().split(newline)]; a line that
    does not decode is the one fault the [try] absorbs. *)
Fixpoint parse_lines (lines : list string) (events : list json)
  (assistant_message : string) : outcome (list json * string) :=
  match lines with
  | [] => Return (events, assistant_message)
  | line :: rest =>
      if negb (truthy line) then parse_lines rest events assistant_message
      else
        match loads line with
        | None => parse_lines rest events assistant_message
        | Some event =>
            let events := events ++ [event] in
            let! ty := py_get event "type" JNull in
            if eq_text ty "message" then
              let! role := py_get event "role" JNull in
              if eq_text role "assistant" then
                let! content := py_get event "content" (JList []) in
                let! items := py_iter content in
                let! assistant_message := collect_text items assistant_message in
                parse_lines rest events assistant_message
              else parse_lines rest events assistant_message
            else parse_lines rest events assistant_message
        end
  end.

Record Parsed : Type := mkParsed {
  events : list json;
  assistant_message : string;
  raw_output : string
}.

Definition _parse_json_output (output : string) : outcome Parsed :=
  let! r := parse_lines (split nl (strip output)) [] EmptyString in
  Return {| events := fst r; assistant_message := snd r; raw_output := output |}.

(** ** Results and [_process_message] *)

Inductive value : Type :=
| VBool (b : bool)
| VInt (n : Z)
| VStr (s : string)
| VEvents (events : list json).

(** A dict literal with text keys. *)
Definition dict (items : list (string * value)) : gmap string value :=
  list_to_map items.
Arguments dict : simpl never.

Definition _process_message (w : World) (message : pyobj) : M (gmap string value) :=
  let message :=
    match message with
    | PDict d => Py.get "content" (PStr (py_str message)) d
    | _ => message
    end in
  let message := py_str message in
  authenticated <- _ensure_authenticated w ;;
  if negb authenticated then
    ret (dict [("error", VBool true);
               ("error_type", VStr "authentication_error");
               ("message", VStr "Failed to authenticate with Codex CLI. Please check your credentials.");
               ("original_message", VStr message)])
  else
    try_except
      (cmd <- _build_command w message ;;
       log ("Executing Codex command: " +:+ join " " (take 3 cmd) +:+ "...") ;;
       self <- get ;;
       let env := environ self in
       let env := if String.eqb (auth_method self) "api_key" && truthy (api_key self)
                  then <["OPENAI_API_KEY" := api_key self]> env else env in
       emit (IsDir (working_directory self)) ;;
       let cwd := if isdir w (working_directory self)
                  then Some (working_directory self) else None in
       emit (Spawn cmd (timeout self)) ;;
       result <- lift (run w cmd env cwd (timeout self)) ;;
       if negb (returncode result =? 0)%Z then
         log ("Codex exec failed with code " +:+ pretty (returncode result)
              +:+ ": " +:+ stderr result) ;;
         ret (dict [("error", VBool true);
                    ("error_type", VStr "execution_error");
                    ("message", VStr (if truthy (stderr result) then stderr result
                                      else "Codex execution failed"));
                    ("return_code", VInt (returncode result));
                    ("original_message", VStr message)])
       else
         parsed <- lift (_parse_json_output (stdout result)) ;;
         ret (dict [("success", VBool true);
                    ("response", VStr (assistant_message parsed));
                    ("events", VEvents (events parsed));
                    ("original_message", VStr message)]))
      (fun e =>
         self <- get ;;
         match e with
         | TimeoutExpired _ _ =>
             log ("Codex command timed out after " +:+ pretty (timeout self)
                  +:+ " seconds") ;;
             ret (dict [("error", VBool true);
                        ("error_type", VStr "timeout");
                        ("message", VStr ("Codex execution timed out after "
                                          +:+ pretty (timeout self) +:+ " seconds"));
                        ("original_message", VStr message)])
         | _ =>
             log ("Error executing Codex command: " +:+ exn_str e) ;;
             ret (dict [("error", VBool true);
                        ("error_type", VStr "exception");
                        ("message", VStr (exn_str e));
                        ("original_message", VStr message)])
         end).

Definition check_codex_installation (w : World) : M (gmap string value) :=
  codex_path <- _find_codex_cli w ;;
  if negb (opt_truthy codex_path) then
    ret (dict [("installed", VBool false);
               ("message", VStr "Codex CLI not found. Please install from https://developers.openai.com/codex/cli/")])
  else
    let path := from_option id EmptyString codex_path in
    try_except
      (self <- get ;;
       let argv := [path; "--version"] in
       emit (Spawn argv 10) ;;
       result <- lift (run w argv (environ self) None 10) ;;
       ret (dict [("installed", VBool true);
                  ("path", VStr path);
                  ("version", VStr (if (returncode result =? 0)%Z
                                    then strip (stdout result) else "unknown"))]))
      (fun e =>
         ret (dict [("installed", VBool true);
                    ("path", VStr path);
                    ("version", VStr "unknown");
                    ("error", VStr (exn_str e))])).

(** ** The icon and the connection form *)

(** What [get_icon] sees of the file system. *)
Record IconFiles : Type := mkIconFiles {
  module_dir : string;                      (* os.path.dirname(__file__) *)
  path_join : string -> string -> string;   (* os.path.join *)
  read_text : string -> outcome string      (* open(path, encoding=utf-8).read() *)
}.

(** The literal returned when the icon file gives nothing. *)
Definition fallback_icon : string :=
  dq "<svg viewBox='0 0 24 24' fill='none' xmlns='http://www.w3.org/2000/svg'>
            <rect width='24' height='24' rx='4' fill='#10A37F'/>
            <path d='M12 4C7.58 4 4 7.58 4 12C4 16.42 7.58 20 12 20C16.42 20 20 16.42 20 12C20 7.58 16.42 4 12 4ZM12 18C8.69 18 6 15.31 6 12C6 8.69 8.69 6 12 6C15.31 6 18 8.69 18 12C18 15.31 15.31 18 12 18Z' fill='white'/>
            <path d='M12 8V12L15 13.5' stroke='white' stroke-width='1.5' stroke-linecap='round' stroke-linejoin='round'/>
            <text x='12' y='16' text-anchor='middle' fill='white' font-size='4' font-family='Arial'>CLI</text>
        </svg>".

(** [get_icon]: [Some content] stands for the [return] inside the [with]. *)
Definition get_icon (f : IconFiles) : M string :=
  let icon_path := path_join f (module_dir f) "icon.svg" in
  found <- try_except
             (content <- lift (read_text f icon_path) ;;
              if truthy (strip content) then ret (Some content) else ret None)
             (fun e => log ("Error reading icon file: " +:+ exn_str e) ;; ret None) ;;
  match found with
  | Some content => ret content
  | None => ret fallback_icon
  end.

(** One entry of the field list of the connection form; a key the source
    leaves out is [None]. *)
Record Field : Type := mkField {
  f_name : string;
  f_type : string;
  f_label : string;
  f_required : bool;
  f_default : option value;
  f_description : option string;
  f_options : option (list (string * string));   (* value, label *)
  f_depends_on : option (string * string)        (* field, value *)
}.

Record ConnectionData : Type := mkConnectionData {
  connection_type : string;
  fields : list Field
}.

Definition get_connection_data : ConnectionData :=
  {| connection_type := "ON_DEMAND";
     fields :=
       [ {| f_name := "auth_method"; f_type := "select";
            f_label := "Authentication Method"; f_required := true;
            f_default := Some (VStr "api_key");
            f_description := Some "OAuth uses the local Codex CLI device login flow and reuses any existing session.";
            f_options := Some [("api_key", "API Key"); ("oauth", "OAuth (Browser Login)")];
            f_depends_on := None |};
         {| f_name := "api_key"; f_type := "password";
            f_label := "OpenAI API Key (API Key auth only)"; f_required := false;
            f_default := None;
            f_description := Some "Ignored when OAuth is selected.";
            f_options := None;
            f_depends_on := Some ("auth_method", "api_key") |};
         {| f_name := "model"; f_type := "select";
            f_label := "Model"; f_required := false;
            f_default := Some (VStr "o4-mini");
            f_description := None;
            f_options := Some [("o4-mini", "O4 Mini (Fast)"); ("o3", "O3 (Powerful)");
                               ("gpt-4.1", "GPT-4.1")];
            f_depends_on := None |};
         {| f_name := "sandbox_mode"; f_type := "select";
            f_label := "Sandbox Mode"; f_required := false;
            f_default := Some (VStr "read-only");
            f_description := None;
            f_options := Some [("read-only", "Read Only (Safest)");
                               ("workspace-write", "Workspace Write");
                               ("danger-full-access", "Full Access (Dangerous)")];
            f_depends_on := None |};
         {| f_name := "working_directory"; f_type := "text";
            f_label := "Working Directory"; f_required := false;
            f_default := None;
            f_description := Some "Directory for Codex to operate in";
            f_options := None;
            f_depends_on := None |};
         {| f_name := "timeout"; f_type := "number";
            f_label := "Timeout (seconds)"; f_required := false;
            f_default := Some (VInt 300);
            f_description := Some "Maximum time to wait for Codex response";
            f_options := None;
            f_depends_on := None |};
         {| f_name := "full_auto"; f_type := "checkbox";
            f_label := "Full Auto Mode"; f_required := false;
            f_default := Some (VBool false);
            f_description := Some "Enable automatic approval for commands";
            f_options := None;
            f_depends_on := None |};
         {| f_name := "enable_search"; f_type := "checkbox";
            f_label := "Enable Web Search"; f_required := false;
            f_default := Some (VBool false);
            f_description := Some "Allow Codex to search the web";
            f_options := None;
            f_depends_on := None |} ] |}.

(** ** The life of an adapter

    The methods a host or the pipeline calls on an instance.
    [_trigger_oauth_login] has one call site, inside [_ensure_authenticated],
    and [_parse_json_output] touches no state. *)

Inductive call : Type :=
| Call_find_codex_cli
| Call_ensure_authenticated
| Call_build_command (message : string)
| Call_process_message (message : pyobj)
| Call_check_codex_installation.

Definition exec (w : World) (c : call) (s : State) : State :=
  match c with
  | Call_find_codex_cli => snd (_find_codex_cli w s)
  | Call_ensure_authenticated => snd (_ensure_authenticated w s)
  | Call_build_command message => snd (_build_command w message s)
  | Call_process_message message => snd (_process_message w message s)
  | Call_check_codex_installation => snd (check_codex_installation w s)
  end.

Inductive reachable (s0 : State) : State -> Prop :=
| reach_init : reachable s0 s0
| reach_call (w : World) (c : call) (s : State) :
    reachable s0 s -> reachable s0 (exec w c s).

(** ** Sample machines and adapters

    A machine with codex on the search path, whose children all end as [out]. *)
Definition demo_world (out : outcome CompletedProcess) : World :=
  {| which := fun name => if String.eqb name "codex" then Some "/usr/bin/codex" else None;
     expanduser := fun p => p;
     isfile := fun _ => false;
     isdir := fun _ => true;
     getcwd := "/srv";
     run := fun _ _ _ _ => out |}.

(** api_key mode with a credential, a deadline of 60 seconds, web search on. *)
Definition demo_params : Params :=
  {| p_auth_method := None; p_api_key := Some "sk-test"; p_model := None;
     p_sandbox_mode := None; p_working_directory := None; p_timeout := Some 60;
     p_full_auto := None; p_enable_search := Some true |}.

(** The same machine with a child that cannot be started, and a fresh
    adapter on it. *)
Definition idle_world : World := demo_world (Raise (OtherError "not started")).

Definition demo_state : State := __init__ idle_world demo_params ∅.

(** The same machine with a child that outlives any deadline, and with one
    that exits with code 1; a configuration in api_key mode without a
    credential. *)
Definition slow_world : World := demo_world (Raise (TimeoutExpired [] 60)).

Definition failing_world : World :=
  demo_world (Return (mkCompleted 1 EmptyString "bad sandbox flag")).

Definition keyless_params : Params :=
  {| p_auth_method := Some "api_key"; p_api_key := None; p_model := None;
     p_sandbox_mode := None; p_working_directory := None; p_timeout := None;
     p_full_auto := None; p_enable_search := None |}.

(** A configuration in api_key mode whose credential holds a NUL character,
    and a fresh adapter with it on the sample machine. *)
Definition nul_params : Params :=
  {| p_auth_method := Some "api_key";
     p_api_key := Some ("sk" +:+ String Ascii.zero "x");
     p_model := None; p_sandbox_mode := None; p_working_directory := None;
     p_timeout := None; p_full_auto := None; p_enable_search := None |}.

Definition nul_state : State := __init__ idle_world nul_params ∅.

(** The assistant line of the round-trip example. *)
Definition sample_line : string :=
  dq "{'type':'message','role':'assistant','content':[{'type':'text','text':'Hello'}]}".

(** * Vocabulary of the properties *)

(** ** States *)

(** The configuration read at construction is the same in both states. *)
Definition same_config (s s' : State) : Prop :=
  auth_method s' = auth_method s /\ api_key s' = api_key s
  /\ model s' = model s /\ sandbox_mode s' = sandbox_mode s
  /\ working_directory s' = working_directory s /\ timeout s' = timeout s
  /\ full_auto s' = full_auto s /\ enable_search s' = enable_search s.

(** The configuration admits one of the two ways of authenticating. *)
Definition can_authenticate (s : State) : bool :=
  String.eqb (auth_method s) "api_key" && truthy (api_key s)
  || String.eqb (auth_method s) "oauth".

(** [evolves s s']: the configuration is untouched, the flag and a populated
    cache are never reset, and the flag is only raised where the
    configuration admits it and the executable has been located. *)
Record evolves (s s' : State) : Prop := mkEvolves {
  ev_config : same_config s s';
  ev_flag_kept : _authenticated s = true -> _authenticated s' = true;
  ev_flag_set : _authenticated s' = true ->
                _authenticated s = true
                \/ (can_authenticate s = true /\ opt_truthy (_codex_path s') = true);
  ev_cache_kept : opt_truthy (_codex_path s) = true -> _codex_path s' = _codex_path s
}.

(** ** Children *)

(** The argument vector of an effect that starts a child. *)
Definition spawned (e : effect) : option (list string) :=
  match e with
  | Spawn argv _ => Some argv
  | _ => None
  end.

(** The argument vectors of the children started so far, oldest first. *)
Definition spawns (s : State) : list (list string) := omap spawned (trace s).

(** The command of the device login. *)
Definition login_argv (argv : list string) : Prop :=
  exists codex_path, argv = [codex_path; "login"; "--device-auth"].

(** ** Argument vectors *)

(** A flag with its value, present when the value is not empty. *)
Definition valued_flag (flag value : string) : list string :=
  if truthy value then [flag; value] else [].

(** A flag without value, present when enabled. *)
Definition switch (flag : string) (enabled : bool) : list string :=
  if enabled then [flag] else [].

(** The argument vector as the specification lays it out. *)
Definition argv_of (codex_path : string) (s : State) (prompt : string) : list string :=
  [codex_path; "exec"; "--json"]
  ++ valued_flag "--model" (model s)
  ++ valued_flag "--sandbox" (sandbox_mode s)
  ++ switch "--full-auto" (full_auto s)
  ++ switch "--search" (enable_search s)
  ++ valued_flag "--cd" (working_directory s)
  ++ [prompt].

(** ** Prompts and results *)

(** The first value filed under [key] in the items of a dict, if any. *)
Fixpoint lookup_item (key : string) (d : list (string * pyobj)) : option pyobj :=
  match d with
  | [] => None
  | (k, v) :: rest => if String.eqb key k then Some v else lookup_item key rest
  end.

(** The prompt a message stands for: the text of the content entry of a
    dict, else the text of the message itself. *)
Definition prompt_of (message : pyobj) : string :=
  match message with
  | PDict d =>
      match lookup_item "content" d with
      | Some v => py_str v
      | None => py_str message
      end
  | _ => py_str message
  end.

(** The result mappings, keyed as the caller sees them: a success, an error
    of a given kind, an execution error with its return code. *)
Definition success_result (prompt response : string) (evs : list json)
  : gmap string value :=
  dict [("success", VBool true); ("response", VStr response);
        ("events", VEvents evs); ("original_message", VStr prompt)].

Definition error_result (prompt kind msg : string) : gmap string value :=
  dict [("error", VBool true); ("error_type", VStr kind);
        ("message", VStr msg); ("original_message", VStr prompt)].

Definition execution_error_result (prompt msg : string) (code : Z)
  : gmap string value :=
  dict [("error", VBool true); ("error_type", VStr "execution_error");
        ("message", VStr msg); ("return_code", VInt code);
        ("original_message", VStr prompt)].

(** The message of a timeout for a deadline of [t] seconds. *)
Definition timeout_message (t : Z) : string :=
  "Codex execution timed out after " +:+ pretty t +:+ " seconds".

(** What the two [except] clauses make of a fault. *)
Definition fault_result (prompt : string) (t : Z) (e : exn) : gmap string value :=
  match e with
  | TimeoutExpired _ _ => error_result prompt "timeout" (timeout_message t)
  | _ => error_result prompt "exception" (exn_str e)
  end.

(** What is made of the child's outcome. *)
Definition run_result (prompt : string) (t : Z) (o : outcome CompletedProcess)
  : gmap string value :=
  match o with
  | Raise e => fault_result prompt t e
  | Return result =>
      if (returncode result =? 0)%Z then
        match _parse_json_output (stdout result) with
        | Return parsed =>
            success_result prompt (assistant_message parsed) (events parsed)
        | Raise e => fault_result prompt t e
        end
      else
        execution_error_result prompt
          (if truthy (stderr result) then stderr result else "Codex execution failed")
          (returncode result)
  end.

(** The environment and the directory handed to the child. *)
Definition exec_env (s : State) : gmap string string :=
  if String.eqb (auth_method s) "api_key" && truthy (api_key s)
  then <["OPENAI_API_KEY" := api_key s]> (environ s)
  else environ s.

Definition exec_cwd (w : World) (s : State) : option string :=
  if isdir w (working_directory s) then Some (working_directory s) else None.

(** The message of an authentication failure. *)
Definition auth_failure_message : string :=
  "Failed to authenticate with Codex CLI. Please check your credentials.".

(** One call of [_process_message], phase by phase. *)
Inductive processed (w : World) (message : pyobj) (s : State)
  : gmap string value -> State -> Prop :=
| processed_auth_failed s1 :
    _ensure_authenticated w s = (Return false, s1) ->
    processed w message s
      (error_result (prompt_of message) "authentication_error" auth_failure_message) s1
| processed_build_failed s1 e s2 s3 :
    _ensure_authenticated w s = (Return true, s1) ->
    _build_command w (prompt_of message) s1 = (Raise e, s2) ->
    evolves s2 s3 ->
    spawns s3 = spawns s2 ->
    processed w message s (fault_result (prompt_of message) (timeout s) e) s3
| processed_run s1 cmd s2 s3 :
    _ensure_authenticated w s = (Return true, s1) ->
    _build_command w (prompt_of message) s1 = (Return cmd, s2) ->
    evolves s2 s3 ->
    spawns s3 = spawns s2 ++ [cmd] ->
    processed w message s
      (run_result (prompt_of message) (timeout s)
         (run w cmd (exec_env s2) (exec_cwd w s2) (timeout s))) s3.

(** The vocabulary of [error_type]. *)
Definition error_kinds : list string :=
  ["authentication_error"; "execution_error"; "timeout"; "exception"].

(** The success shape: exactly the four keys of a success. *)
Definition is_success (prompt : string) (d : gmap string value) : Prop :=
  exists response evs, d = success_result prompt response evs.

(** The error shape: the four keys of an error, with return_code as a fifth
    for an execution_error that carries one. *)
Definition is_error (prompt : string) (d : gmap string value) : Prop :=
  exists kind msg,
    In kind error_kinds
    /\ (d = error_result prompt kind msg
        \/ exists code, kind = "execution_error"
                        /\ d = execution_error_result prompt msg code).

(** ** Event streams *)

(** An item the inner loop of the parser gets through: a dict whose text,
    when it is a text item, is a [str]. *)
Definition item_ok (item : json) : bool :=
  match item with
  | JDict d =>
      if eq_text (from_option id JNull (dict_lookup "type" d)) "text" then
        match from_option id (JStr EmptyString) (dict_lookup "text" d) with
        | JStr _ => true
        | _ => false
        end
      else true
  | _ => false
  end.

(** A decoded value the parser gets through: a dict which, when it is an
    assistant message, has a content that can be iterated and yields only
    such items. *)
Definition event_ok (event : json) : bool :=
  match event with
  | JDict d =>
      if eq_text (from_option id JNull (dict_lookup "type" d)) "message"
         && eq_text (from_option id JNull (dict_lookup "role" d)) "assistant"
      then
        match py_iter (from_option id (JList []) (dict_lookup "content" d)) with
        | Return items => forallb item_ok items
        | Raise _ => false
        end
      else true
  | _ => false
  end.

(** The values the lines of an output decode to, in order. *)
Fixpoint decoded (lines : list string) : list json :=
  match lines with
  | [] => []
  | line :: rest =>
      if truthy line then
        match loads line with
        | Some event => event :: decoded rest
        | None => decoded rest
        end
      else decoded rest
  end.

(** ** Vocabulary of the further properties *)

(** Where the executable is for an adapter with nothing cached: the search
    path first, then the first candidate that is a file. *)
Definition locate (w : World) : option string :=
  if opt_truthy (which w "codex") then which w "codex"
  else List.find (isfile w) (common_paths w).

(** Whether the device login started with [codex_path] under [env] ends
    with exit code zero. *)
Definition login_succeeds (w : World) (codex_path : string)
  (env : gmap string string) : bool :=
  match run w [codex_path; "login"; "--device-auth"] env None 120 with
  | Return result => (returncode result =? 0)%Z
  | Raise _ => false
  end.

(** The text an item adds to the reply: the text of a text item. *)
Definition text_of_item (item : json) : string :=
  match item with
  | JDict d =>
      if eq_text (from_option id JNull (dict_lookup "type" d)) "text" then
        match from_option id (JStr EmptyString) (dict_lookup "text" d) with
        | JStr t => t
        | _ => EmptyString
        end
      else EmptyString
  | _ => EmptyString
  end.

(** The texts [f] gives for the elements of [l], one after the other. *)
Fixpoint concat_texts {A : Type} (f : A -> string) (l : list A) : string :=
  match l with
  | [] => EmptyString
  | a :: rest => f a +:+ concat_texts f rest
  end.

(** The text an event adds to the reply: the texts of the content of an
    assistant message, one after the other. *)
Definition text_of_event (event : json) : string :=
  match event with
  | JDict d =>
      if eq_text (from_option id JNull (dict_lookup "type" d)) "message"
         && eq_text (from_option id JNull (dict_lookup "role" d)) "assistant"
      then
        match py_iter (from_option id (JList []) (dict_lookup "content" d)) with
        | Return items => concat_texts text_of_item items
        | Raise _ => EmptyString
        end
      else EmptyString
  | _ => EmptyString
  end.

(** The version the installation check reports for the outcome of the
    version probe. *)
Definition version_of (o : outcome CompletedProcess) : string :=
  match o with
  | Return result =>
      if (returncode result =? 0)%Z then strip (stdout result) else "unknown"
  | Raise _ => "unknown"
  end.

(** The attribute of the adapter that a field of the form configures. *)
Definition attribute (name : string) (s : State) : option value :=
  if String.eqb name "auth_method" then Some (VStr (auth_method s))
  else if String.eqb name "api_key" then Some (VStr (api_key s))
  else if String.eqb name "model" then Some (VStr (model s))
  else if String.eqb name "sandbox_mode" then Some (VStr (sandbox_mode s))
  else if String.eqb name "working_directory" then Some (VStr (working_directory s))
  else if String.eqb name "timeout" then Some (VInt (timeout s))
  else if String.eqb name "full_auto" then Some (VBool (full_auto s))
  else if String.eqb name "enable_search" then Some (VBool (enable_search s))
  else None.

(** Parameters that set nothing. *)
Definition no_params : Params :=
  {| p_auth_method := None; p_api_key := None; p_model := None;
     p_sandbox_mode := None; p_working_directory := None; p_timeout := None;
     p_full_auto := None; p_enable_search := None |}.

(** A machine without codex, one where the login is granted, and an adapter
    in oauth mode. *)
Definition bare_world : World :=
  {| which := fun _ => None;
     expanduser := fun p => p;
     isfile := fun _ => false;
     isdir := fun _ => false;
     getcwd := "/srv";
     run := fun _ _ _ _ => Raise (OtherError "not started") |}.

Definition granting_world : World :=
  demo_world (Return (mkCompleted 0 "Logged in" EmptyString)).

Definition oauth_params : Params :=
  {| p_auth_method := Some "oauth"; p_api_key := None; p_model := None;
     p_sandbox_mode := None; p_working_directory := None; p_timeout := None;
     p_full_auto := None; p_enable_search := None |}.

(** An output with two assistant messages around a blank line and a status
    event. *)
Definition two_texts : string :=
  dq "{'type':'message','role':'assistant','content':[{'type':'text','text':'A'}]}"
  +:+ newline +:+ newline
  +:+ dq "{'type':'status'}" +:+ newline
  +:+ dq "{'type':'message','role':'assistant','content':[{'type':'image'},{'type':'text','text':'B'}]}".

(** The sample machine with a child that prints the assistant line, and
    with one that prints a bare number. *)
Definition answering_world : World :=
  demo_world (Return (mkCompleted 0 sample_line EmptyString)).

Definition scalar_world : World :=
  demo_world (Return (mkCompleted 0 "42" EmptyString)).

(** An output with an assistant message followed by a line that decodes to
    a list. *)
Definition mixed_shapes : string :=
  sample_line +:+ newline +:+ "[1, 2]".

(** An output of status lines only. *)
Definition status_only : string :=
  "Thinking..." +:+ newline +:+ "not-json" +:+ newline.

(** The oauth adapter after a granted login. *)
Definition logged_in_state : State :=
  snd (_ensure_authenticated granting_world (__init__ granting_world oauth_params ∅)).

(** An icon directory whose file cannot be read. *)
Definition no_icon : IconFiles :=
  {| module_dir := "/opt/codex";
     path_join := fun a b => a +:+ "/" +:+ b;
     read_text := fun _ => Raise (OtherError "No such file or directory") |}.

(** The child of the installation check: the version probe of
    [codex_path], under the inherited environment, with ten seconds. *)
Definition version_probe (w : World) (codex_path : string) (s : State)
  : outcome CompletedProcess :=
  run w [codex_path; "--version"] (environ s) None 10.

(** The icon for what reading the icon file gave. *)
Definition icon_of (o : outcome string) : string :=
  match o with
  | Return content => if truthy (strip content) then content else fallback_icon
  | Raise _ => fallback_icon
  end.

(** [offers field v]: [v] is one of the choices of [field], where the field
    lists choices. *)
Definition offers (field : Field) (v : value) : Prop :=
  match f_options field with
  | Some options => exists choice label, v = VStr choice /\ (choice, label) ∈ options
  | None => True
  end.

(** The sample machine with a child that prints a version. *)
Definition versioned_world : World :=
  demo_world (Return (mkCompleted 0 ("codex-cli 0.1" +:+ newline) EmptyString)).

(** * Properties *)

(** ** The decoder terminates within its fuel *)

Lemma skip_ws_length s : (String.length (skip_ws s) <= String.length s)%nat.
Proof. induction s as [| c r IH]; simpl; [lia |]. destruct (is_ws c); simpl; lia. Qed.

Lemma scanstring_consumes n : forall s acc v rest,
  (String.length s <= n)%nat ->
  scanstring s acc = Scanned v rest -> (String.length rest < String.length s)%nat.
Proof.
  induction n as [| n IH]; intros s acc v rest Hn H.
  - destruct s; simpl in *; [discriminate | lia].
  - destruct s as [| c r]; simpl in H; [discriminate |].
    repeat (case_match; try discriminate); subst;
      first [ apply IH in H; cbn [String.length] in *; lia
            | inversion H; subst; cbn [String.length] in *; lia ].
Qed.

Lemma scanstring_shorter s acc v rest :
  scanstring s acc = Scanned v rest -> (String.length rest < String.length s)%nat.
Proof. by apply (scanstring_consumes (String.length s)). Qed.

Lemma scanstring_not_exhausted n : forall s acc,
  (String.length s <= n)%nat -> scanstring s acc <> Exhausted.
Proof.
  induction n as [| n IH]; intros s acc Hn.
  - destruct s; simpl in *; [discriminate | lia].
  - destruct s as [| c r]; simpl; [discriminate |].
    repeat (case_match; try discriminate); subst;
      apply IH; cbn [String.length] in *; lia.
Qed.

Lemma span_digits_length s :
  (String.length (snd (span_digits s)) <= String.length s)%nat.
Proof.
  induction s as [| c r IH]; simpl; [lia |].
  destruct (is_digit c); simpl; [| lia].
  destruct (span_digits r); simpl in *. lia.
Qed.

Lemma match_frac_length s :
  (String.length (snd (match_frac s)) <= String.length s)%nat.
Proof.
  destruct s as [| c r]; simpl; [lia |].
  destruct (Ascii.eqb c "."); simpl; [| lia].
  pose proof (span_digits_length r).
  destruct (span_digits r) as [[| d ds] rest]; simpl in *; lia.
Qed.

Lemma match_exp_length s :
  (String.length (snd (match_exp s)) <= String.length s)%nat.
Proof.
  destruct s as [| c r]; [simpl; lia |]. unfold match_exp.
  destruct (Ascii.eqb c "e" || Ascii.eqb c "E"); [| simpl; lia].
  destruct r as [| g r']; [simpl; lia |].
  destruct (Ascii.eqb g "-" || Ascii.eqb g "+").
  - pose proof (span_digits_length r').
    destruct (span_digits r') as [[| d ds] rest]; simpl in *; lia.
  - pose proof (span_digits_length (String g r')).
    destruct (span_digits (String g r')) as [[| d ds] rest]; simpl in *; lia.
Qed.

Lemma match_integer_length s lexeme rest :
  match_integer s = Some (lexeme, rest) ->
  (String.length rest < String.length s)%nat.
Proof.
  unfold match_integer. intros H.
  destruct s as [| c r]; simpl in H; [discriminate |].
  destruct (Ascii.eqb c "-").
  - destruct r as [| c' r']; [discriminate |].
    destruct (Ascii.eqb c' "0"); [inversion H; subst; simpl; lia |].
    destruct (is_digit c'); [| discriminate].
    pose proof (span_digits_length r').
    destruct (span_digits r'). inversion H; subst. simpl in *. lia.
  - destruct (Ascii.eqb c "0"); [inversion H; subst; simpl; lia |].
    destruct (is_digit c); [| discriminate].
    pose proof (span_digits_length r).
    destruct (span_digits r). inversion H; subst. simpl in *. lia.
Qed.

Lemma match_number_length s v rest :
  match_number s = Some (v, rest) -> (String.length rest < String.length s)%nat.
Proof.
  unfold match_number. intros H.
  destruct (match_integer s) as [[integer r1] |] eqn:Hi; [| discriminate].
  apply match_integer_length in Hi.
  pose proof (match_frac_length r1) as Hf.
  destruct (match_frac r1) as [frac r2].
  pose proof (match_exp_length r2) as He.
  destruct (match_exp r2) as [exp r3]. simpl in *.
  destruct (truthy frac || truthy exp); inversion H; subst; lia.
Qed.

Lemma starts_with_length p : forall s rest,
  starts_with p s = Some rest ->
  (String.length rest + String.length p = String.length s)%nat.
Proof.
  induction p as [| a p IH]; intros s rest H; simpl in *.
  - inversion H. lia.
  - destruct s as [| b s']; [discriminate |].
    destruct (Ascii.eqb a b); [| discriminate].
    apply IH in H. simpl. lia.
Qed.

Lemma literal_length word v s v' rest :
  word <> EmptyString ->
  literal word v s = Some (v', rest) -> (String.length rest < String.length s)%nat.
Proof.
  unfold literal. intros Hw H.
  destruct (starts_with word s) eqn:Hs; [| discriminate].
  inversion H; subst. apply starts_with_length in Hs.
  destruct word; [done |]. simpl in *. lia.
Qed.

Section ContainerFuel.
Variable scan : string -> Json.scan json.
Hypothesis scan_shorter :
  forall s v rest, scan s = Scanned v rest ->
                   (String.length rest < String.length s)%nat.

Lemma array_items_shorter n : forall s values l rest,
  array_items scan n s values = Scanned l rest ->
  (String.length rest < String.length s)%nat.
Proof.
  induction n as [| n IH]; intros s values l rest H; simpl in H; [discriminate |].
  destruct (scan s) as [value r0 | |] eqn:Hs; try discriminate.
  apply scan_shorter in Hs. pose proof (skip_ws_length r0) as Hw.
  destruct (skip_ws r0) as [| c r]; [discriminate |].
  destruct (Ascii.eqb c "]").
  { inversion H; subst. simpl in *. lia. }
  destruct (Ascii.eqb c ","); [| discriminate].
  apply IH in H. pose proof (skip_ws_length r). simpl in *. lia.
Qed.

Lemma JSONArray_shorter n s l rest :
  JSONArray scan n s = Scanned l rest ->
  (String.length rest < String.length s)%nat.
Proof.
  unfold JSONArray. intros H. pose proof (skip_ws_length s) as Hw.
  destruct (skip_ws s) as [| c r].
  - apply array_items_shorter in H. simpl in *. lia.
  - destruct (Ascii.eqb c "]").
    + inversion H; subst. simpl in *. lia.
    + apply array_items_shorter in H. lia.
Qed.

Lemma object_items_shorter n : forall s pairs d rest,
  object_items scan n s pairs = Scanned d rest ->
  (String.length rest < String.length s)%nat.
Proof.
  induction n as [| n IH]; intros s pairs d rest H; simpl in H; [discriminate |].
  destruct (scanstring s EmptyString) as [key r0 | |] eqn:Hk; try discriminate.
  apply scanstring_shorter in Hk. pose proof (skip_ws_length r0) as Hw0.
  destruct (skip_ws r0) as [| c r1]; [discriminate |].
  destruct (Ascii.eqb c ":"); [| discriminate].
  pose proof (skip_ws_length r1) as Hw1.
  destruct (scan (skip_ws r1)) as [value r2 | |] eqn:Hv; try discriminate.
  apply scan_shorter in Hv. pose proof (skip_ws_length r2) as Hw2.
  destruct (skip_ws r2) as [| c' r3]; [discriminate |].
  destruct (Ascii.eqb c' "}").
  { inversion H; subst. simpl in *. lia. }
  destruct (Ascii.eqb c' ","); [| discriminate].
  pose proof (skip_ws_length r3) as Hw3.
  destruct (skip_ws r3) as [| q r4]; [discriminate |].
  destruct (Ascii.eqb q dquote); [| discriminate].
  apply IH in H. simpl in *. lia.
Qed.

Lemma JSONObject_shorter n s d rest :
  JSONObject scan n s = Scanned d rest ->
  (String.length rest < String.length s)%nat.
Proof.
  unfold JSONObject. intros H. pose proof (skip_ws_length s) as Hw.
  destruct (skip_ws s) as [| c r]; [discriminate |].
  destruct (Ascii.eqb c "}").
  { inversion H; subst. simpl in *. lia. }
  destruct (Ascii.eqb c dquote); [| discriminate].
  apply object_items_shorter in H. simpl in *. lia.
Qed.

Lemma array_items_fuel n : forall s values,
  (forall s', (String.length s' <= String.length s)%nat -> scan s' <> Exhausted) ->
  (String.length s < n)%nat ->
  array_items scan n s values <> Exhausted.
Proof.
  induction n as [| n IH]; intros s values Hscan Hn; [lia |]. simpl.
  destruct (scan s) as [value r0 | |] eqn:Hs; try discriminate.
  2:{ by apply (Hscan s) in Hs. }
  apply scan_shorter in Hs. pose proof (skip_ws_length r0) as Hw.
  destruct (skip_ws r0) as [| c r]; [discriminate |].
  destruct (Ascii.eqb c "]"); [discriminate |].
  destruct (Ascii.eqb c ","); [| discriminate].
  pose proof (skip_ws_length r). simpl in *.
  apply IH; [| lia]. intros s' Hs'. apply Hscan. lia.
Qed.

Lemma JSONArray_fuel n s :
  (forall s', (String.length s' <= String.length s)%nat -> scan s' <> Exhausted) ->
  (String.length s < n)%nat ->
  JSONArray scan n s <> Exhausted.
Proof.
  intros Hscan Hn. unfold JSONArray. pose proof (skip_ws_length s) as Hw.
  destruct (skip_ws s) as [| c r].
  - apply array_items_fuel; [| simpl; lia].
    intros s' Hs'. apply Hscan. simpl in *. lia.
  - destruct (Ascii.eqb c "]"); [discriminate |].
    apply array_items_fuel; [| lia]. intros s' Hs'. apply Hscan. lia.
Qed.

Lemma object_items_fuel n : forall s pairs,
  (forall s', (String.length s' <= String.length s)%nat -> scan s' <> Exhausted) ->
  (String.length s < n)%nat ->
  object_items scan n s pairs <> Exhausted.
Proof.
  induction n as [| n IH]; intros s pairs Hscan Hn; [lia |]. simpl.
  destruct (scanstring s EmptyString) as [key r0 | |] eqn:Hk; try discriminate.
  2:{ by apply (scanstring_not_exhausted (String.length s)) in Hk. }
  apply scanstring_shorter in Hk. pose proof (skip_ws_length r0) as Hw0.
  destruct (skip_ws r0) as [| c r1]; [discriminate |].
  destruct (Ascii.eqb c ":"); [| discriminate].
  pose proof (skip_ws_length r1) as Hw1.
  destruct (scan (skip_ws r1)) as [value r2 | |] eqn:Hv; try discriminate.
  2:{ apply Hscan in Hv; [done | simpl in *; lia]. }
  apply scan_shorter in Hv. pose proof (skip_ws_length r2) as Hw2.
  destruct (skip_ws r2) as [| c' r3]; [discriminate |].
  destruct (Ascii.eqb c' "}"); [discriminate |].
  destruct (Ascii.eqb c' ","); [| discriminate].
  pose proof (skip_ws_length r3) as Hw3.
  destruct (skip_ws r3) as [| q r4]; [discriminate |].
  destruct (Ascii.eqb q dquote); [| discriminate].
  simpl in *. apply IH; [| lia]. intros s' Hs'. apply Hscan. lia.
Qed.

Lemma JSONObject_fuel n s :
  (forall s', (String.length s' <= String.length s)%nat -> scan s' <> Exhausted) ->
  (String.length s < n)%nat ->
  JSONObject scan n s <> Exhausted.
Proof.
  intros Hscan Hn. unfold JSONObject. pose proof (skip_ws_length s) as Hw.
  destruct (skip_ws s) as [| c r]; [discriminate |].
  destruct (Ascii.eqb c "}"); [discriminate |].
  destruct (Ascii.eqb c dquote); [| discriminate].
  simpl in *. apply object_items_fuel; [| lia].
  intros s' Hs'. apply Hscan. lia.
Qed.
End ContainerFuel.

Lemma scan_once_shorter fuel : forall s v rest,
  scan_once fuel s = Scanned v rest -> (String.length rest < String.length s)%nat.
Proof.
  induction fuel as [| fuel IH]; intros s v rest H; simpl in H; [discriminate |].
  destruct s as [| c r]; [discriminate |].
  destruct (Ascii.eqb c dquote).
  { destruct (scanstring r EmptyString) eqn:Hs; inversion H; subst.
    apply scanstring_shorter in Hs. simpl. lia. }
  destruct (Ascii.eqb c "{").
  { destruct (JSONObject (scan_once fuel) fuel r) eqn:Ho; inversion H; subst.
    apply (JSONObject_shorter _ IH) in Ho. simpl. lia. }
  destruct (Ascii.eqb c "[").
  { destruct (JSONArray (scan_once fuel) fuel r) eqn:Ha; inversion H; subst.
    apply (JSONArray_shorter _ IH) in Ha. simpl. lia. }
  repeat match type of H with
         | match literal ?word ?v0 ?s0 with _ => _ end = _ =>
             destruct (literal word v0 s0) as [[v1 r1] |] eqn:?;
             [ inversion H; subst; eapply literal_length; [| eassumption]; done |]
         | match match_number ?s0 with _ => _ end = _ =>
             destruct (match_number s0) as [[v1 r1] |] eqn:?;
             [ inversion H; subst; by eapply match_number_length |]
         end.
  discriminate.
Qed.

Lemma scan_once_fuel fuel : forall s,
  (String.length s < fuel)%nat -> scan_once fuel s <> Exhausted.
Proof.
  induction fuel as [| fuel IH]; intros s Hn; [lia |]. simpl.
  destruct s as [| c r]; [discriminate |]. simpl in Hn.
  destruct (Ascii.eqb c dquote).
  { destruct (scanstring r EmptyString) eqn:Hs; try discriminate.
    by apply (scanstring_not_exhausted (String.length r)) in Hs. }
  destruct (Ascii.eqb c "{").
  { destruct (JSONObject (scan_once fuel) fuel r) eqn:Ho; try discriminate.
    apply JSONObject_fuel in Ho; [done | apply scan_once_shorter | | lia].
    intros s' Hs'. apply IH. lia. }
  destruct (Ascii.eqb c "[").
  { destruct (JSONArray (scan_once fuel) fuel r) eqn:Ha; try discriminate.
    apply JSONArray_fuel in Ha; [done | apply scan_once_shorter | | lia].
    intros s' Hs'. apply IH. lia. }
  repeat (case_match; try discriminate).
Qed.

(** The fuel [loads] hands to the scanner is never used up. *)
Lemma loads_fuel s : scan_once (S (String.length s)) (skip_ws s) <> Exhausted.
Proof. apply scan_once_fuel. pose proof (skip_ws_length s). lia. Qed.


(** ** How a call may change the state *)

Lemma same_config_refl s : same_config s s.
Proof. repeat split. Qed.

Lemma same_config_trans s1 s2 s3 :
  same_config s1 s2 -> same_config s2 s3 -> same_config s1 s3.
Proof. unfold same_config. intuition congruence. Qed.

Lemma can_authenticate_config s s' :
  same_config s s' -> can_authenticate s' = can_authenticate s.
Proof.
  intros (Ha & Hk & _). unfold can_authenticate. by rewrite Ha, Hk.
Qed.

Lemma evolves_refl s : evolves s s.
Proof. split; auto using same_config_refl. Qed.


Lemma evolves_trans s1 s2 s3 : evolves s1 s2 -> evolves s2 s3 -> evolves s1 s3.
Proof.
  intros [C1 K1 S1 P1] [C2 K2 S2 P2]. split.
  - eauto using same_config_trans.
  - auto.
  - intros H3. destruct (S2 H3) as [H2 | [Hc Hp]].
    + destruct (S1 H2) as [H1 | [Hc Hp]]; [by left | right].
      split; [done |]. by rewrite (P2 Hp).
    + right. by rewrite <- (can_authenticate_config _ _ C1).
  - intros H1. rewrite <- (P1 H1). apply P2. by rewrite (P1 H1).
Qed.

Lemma evolves_record e s : evolves s (record e s).
Proof. split; simpl; try tauto. by repeat split. Qed.

Lemma evolves_environ env s : evolves s (set_environ env s).
Proof. split; simpl; try tauto. by repeat split. Qed.

Lemma evolves_cache p s :
  opt_truthy (_codex_path s) = false -> evolves s (set_codex_path p s).
Proof.
  intros Hc. split; simpl; try tauto; [by repeat split | congruence].
Qed.

Create HintDb pipeline.
#[local] Hint Resolve evolves_refl evolves_record evolves_cache : pipeline.

Ltac run_monad :=
  unfold environ_setitem, bind, ret, get, modify, emit, log, lift, raise,
    try_except in *;
  simpl in *.

(** ** The locator *)

Lemma first_existing_spec w paths s :
  opt_truthy (_codex_path s) = false ->
  exists r s', first_existing w paths s = (Return r, s')
    /\ evolves s s'
    /\ _authenticated s' = _authenticated s
    /\ environ s' = environ s
    /\ (opt_truthy r = true -> _codex_path s' = r).
Proof.
  revert s. induction paths as [| path rest IH]; intros s Hc.
  - exists None, s. run_monad. split_and!; auto with pipeline; discriminate.
  - simpl. run_monad. destruct (isfile w path).
    + eexists _, _. split; [reflexivity |]. split_and!; try done.
      eapply evolves_trans; [apply evolves_record | by apply evolves_cache].
    + destruct (IH (record (IsFile path) s) Hc) as (r & s' & E & Hev & Ha & He & Hr).
      exists r, s'. split_and!; try done.
      eapply evolves_trans; [apply evolves_record | done].
Qed.

(** The locator never raises; a populated cache answers without a look at the
    machine, and a hit is cached. *)
Lemma find_codex_cli_spec w s :
  exists r s', _find_codex_cli w s = (Return r, s')
    /\ evolves s s'
    /\ _authenticated s' = _authenticated s
    /\ environ s' = environ s
    /\ (opt_truthy r = true -> _codex_path s' = r)
    /\ (opt_truthy (_codex_path s) = true -> r = _codex_path s /\ s' = s).
Proof.
  unfold _find_codex_cli. run_monad.
  destruct (opt_truthy (_codex_path s)) eqn:Hc.
  - exists (_codex_path s), s. split_and!; auto with pipeline.
  - destruct (opt_truthy (which w "codex")) eqn:Hw.
    + eexists _, _. split; [reflexivity |]. split_and!; try done.
      eapply evolves_trans; [apply evolves_record | by apply evolves_cache].
    + destruct (first_existing_spec w (common_paths w) (record (Which "codex") s) Hc)
        as (r & s' & E & Hev & Ha & He & Hr).
      exists r, s'. split_and!; try done.
      eapply evolves_trans; [apply evolves_record | done].
Qed.

(** ** The authenticator *)

(** The login never raises: every fault of the child is turned into [False].
    It raises the flag only after the executable has been located. *)
Lemma trigger_oauth_login_spec w s :
  exists b s', _trigger_oauth_login w s = (Return b, s')
    /\ same_config s s'
    /\ (_authenticated s = true -> _authenticated s' = true)
    /\ (_authenticated s' = true ->
        _authenticated s = true \/ opt_truthy (_codex_path s') = true)
    /\ (opt_truthy (_codex_path s) = true -> _codex_path s' = _codex_path s)
    /\ environ s' = environ s
    /\ (b = true -> _authenticated s' = true).
Proof.
  unfold _trigger_oauth_login.
  destruct (find_codex_cli_spec w s) as (r & s1 & E & [C K S P] & Ha & He & Hr & _).
  unfold bind at 1. rewrite E.
  destruct (opt_truthy r) eqn:Hrt; simpl.
  - specialize (Hr eq_refl).
    run_monad.
    destruct (run w _ _ None 120) as [result | e]; simpl.
    + destruct (returncode result =? 0)%Z; simpl.
      * destruct (truthy (stderr result)); simpl;
          match goal with
          | |- context [if truthy ?o then _ else _] => destruct (truthy o)
          end; simpl;
          (eexists _, _; split; [reflexivity |]; simpl;
           split_and!; auto; intros; right; by rewrite Hr).
      * destruct (truthy (stderr result)); simpl;
          (eexists _, _; split; [reflexivity |]; simpl;
           split_and!; auto; [intros Hs; destruct (S Hs) as [? | [_ ?]]; auto | discriminate]).
    + destruct e; simpl;
        (eexists _, _; split; [reflexivity |]; simpl;
         split_and!; auto; [intros Hs; destruct (S Hs) as [? | [_ ?]]; auto | discriminate]).
  - run_monad. exists false, s1. split_and!; auto; try discriminate.
    intros Hs; destruct (S Hs) as [? | [_ ?]]; auto.
Qed.

Lemma can_authenticate_api_key s :
  String.eqb (auth_method s) "api_key" && truthy (api_key s) = true ->
  can_authenticate s = true.
Proof. unfold can_authenticate. by intros ->. Qed.

Lemma can_authenticate_oauth s :
  String.eqb (auth_method s) "oauth" = true -> can_authenticate s = true.
Proof. unfold can_authenticate. intros ->. apply orb_true_r. Qed.

(** The authenticator answers at once when the flag is up and answers [True]
    only with the flag up; whatever its outcome, the state evolves. *)
Lemma ensure_authenticated_spec w s :
  exists r s', _ensure_authenticated w s = (r, s')
    /\ evolves s s'
    /\ (r = Return true -> _authenticated s' = true)
    /\ (_authenticated s = true -> r = Return true /\ s' = s).
Proof.
  unfold _ensure_authenticated. unfold bind at 1, get.
  destruct (_authenticated s) eqn:Hauth.
  { exists (Return true), s. unfold ret. split_and!; auto with pipeline. }
  destruct (find_codex_cli_spec w s) as (r & s1 & E & Hev & Ha & He & Hr & _).
  unfold bind at 1. rewrite E.
  destruct (opt_truthy r) eqn:Hrt; simpl.
  2:{ run_monad. eexists _, _. split; [reflexivity |]. split_and!; try discriminate.
      eapply evolves_trans; [done | apply evolves_record]. }
  specialize (Hr eq_refl).
  destruct (String.eqb (auth_method s) "api_key" && truthy (api_key s)) eqn:Hkey; simpl.
  { run_monad. destruct (has_nul (api_key s)); simpl.
    { eexists _, _. split; [reflexivity |]. split_and!; try done. }
    eexists _, _. split; [reflexivity |]. split_and!; try done.
    eapply evolves_trans; [done |].
    destruct Hev as [C K S P]. split; simpl; auto.
    - by repeat split.
    - intros _. right. split; [| by rewrite Hr].
      rewrite (can_authenticate_config _ _ C). by apply can_authenticate_api_key. }
  destruct (String.eqb (auth_method s) "oauth") eqn:Hoauth; simpl.
  2:{ run_monad. exists (Return false), s1. split_and!; try done. }
  unfold bind at 1, log, emit, modify.
  destruct (trigger_oauth_login_spec w (record (Log "OAuth authentication required. Triggering Codex login...") s1))
    as (b & s2 & E2 & C2 & K2 & S2 & P2 & He2 & Hb).
  rewrite E2. exists (Return b), s2. split_and!; try done.
  - eapply evolves_trans; [done |].
    eapply evolves_trans; [apply evolves_record |].
    split; auto.
    intros H2. destruct (S2 H2) as [H1 | H1]; [by left | right].
    split; [| done]. apply can_authenticate_oauth. simpl.
    destruct Hev as [(Hm & _) _ _ _]. by rewrite Hm.
  - intros [= ->]. by apply Hb.
Qed.

(** The authenticator raises only where the credential cannot be exported:
    with the flag down, in api_key mode, for a credential that holds a NUL
    character; the flag then stays down and the environment is untouched. *)
Lemma ensure_authenticated_raises w s e s' :
  _ensure_authenticated w s = (Raise e, s') ->
  e = ValueError "embedded null byte"
  /\ _authenticated s = false
  /\ String.eqb (auth_method s) "api_key" && truthy (api_key s) = true
  /\ has_nul (api_key s) = true
  /\ _authenticated s' = false
  /\ environ s' = environ s.
Proof.
  unfold _ensure_authenticated. unfold bind at 1, get.
  destruct (_authenticated s) eqn:Hauth; [discriminate |].
  destruct (find_codex_cli_spec w s) as (r & s1 & E & Hev & Ha & He & Hr & _).
  unfold bind at 1. rewrite E.
  destruct (opt_truthy r) eqn:Hrt; simpl.
  2:{ by run_monad. }
  destruct (String.eqb (auth_method s) "api_key" && truthy (api_key s)) eqn:Hkey; simpl.
  { run_monad. destruct (has_nul (api_key s)); simpl; [| discriminate].
    intros [= <- <-]. split_and!; try done. congruence. }
  destruct (String.eqb (auth_method s) "oauth") eqn:Hoauth; simpl.
  2:{ by run_monad. }
  unfold bind at 1, log, emit, modify.
  destruct (trigger_oauth_login_spec w (record (Log "OAuth authentication required. Triggering Codex login...") s1))
    as (b & s2 & E2 & _).
  by rewrite E2.
Qed.

(** With a credential free of NUL characters the authenticator returns. *)
Lemma ensure_authenticated_returns w s :
  has_nul (api_key s) = false ->
  exists b s', _ensure_authenticated w s = (Return b, s').
Proof.
  intros Hnul.
  destruct (_ensure_authenticated w s) as [[b | e] s'] eqn:E; [by eauto |].
  apply ensure_authenticated_raises in E as (_ & _ & _ & H & _). congruence.
Qed.

(** ** The children a call starts *)

Lemma spawns_record e s :
  spawns (record e s) = spawns s ++ from_option (fun argv => [argv]) [] (spawned e).
Proof.
  unfold spawns. simpl. rewrite omap_app. simpl. by destruct (spawned e).
Qed.

Lemma spawns_set_codex_path p s : spawns (set_codex_path p s) = spawns s.
Proof. done. Qed.

Lemma first_existing_spawns w paths s :
  spawns (snd (first_existing w paths s)) = spawns s.
Proof.
  revert s. induction paths as [| path rest IH]; intros s; [done |].
  simpl. run_monad. destruct (isfile w path); simpl.
  - rewrite spawns_set_codex_path, spawns_record. simpl. apply app_nil_r.
  - rewrite IH, spawns_record. simpl. apply app_nil_r.
Qed.

Lemma find_codex_cli_spawns w s : spawns (snd (_find_codex_cli w s)) = spawns s.
Proof.
  unfold _find_codex_cli, bind, get, emit, modify, ret. cbv beta iota.
  destruct (opt_truthy (_codex_path s)); [done |].
  destruct (opt_truthy (which w "codex")).
  - cbn [snd]. rewrite spawns_set_codex_path, spawns_record. simpl. apply app_nil_r.
  - rewrite first_existing_spawns, spawns_record. simpl. apply app_nil_r.
Qed.

Ltac spawns_norm :=
  repeat (rewrite ?spawns_record; simpl; rewrite ?app_nil_r; simpl);
  change (spawns (set_authenticated true ?s)) with (spawns s) in *;
  repeat (rewrite ?spawns_record; simpl; rewrite ?app_nil_r; simpl).

(** The only child the login starts is the login command. *)
Lemma trigger_oauth_login_spawns w s :
  exists l, spawns (snd (_trigger_oauth_login w s)) = spawns s ++ l
    /\ Forall login_argv l.
Proof.
  unfold _trigger_oauth_login.
  pose proof (find_codex_cli_spawns w s) as Hf.
  destruct (find_codex_cli_spec w s) as (r & s1 & E & _).
  unfold bind at 1. rewrite E in *. simpl in Hf.
  destruct (opt_truthy r); simpl.
  2:{ exists []. unfold ret. simpl. by rewrite app_nil_r. }
  exists [[from_option id EmptyString r; "login"; "--device-auth"]].
  split; [| repeat constructor; by eexists].
  run_monad.
  destruct (run w _ _ None 120) as [result | e]; simpl.
  - destruct (returncode result =? 0)%Z; simpl.
    + destruct (truthy (stderr result)); simpl;
        match goal with
        | |- context [if truthy ?o then _ else _] => destruct (truthy o)
        end; simpl; spawns_norm; by rewrite Hf.
    + destruct (truthy (stderr result)); simpl; spawns_norm; by rewrite Hf.
  - destruct e; simpl; spawns_norm; by rewrite Hf.
Qed.

Lemma ensure_authenticated_spawns w s :
  exists l, spawns (snd (_ensure_authenticated w s)) = spawns s ++ l
    /\ Forall login_argv l.
Proof.
  unfold _ensure_authenticated. unfold bind at 1, get.
  destruct (_authenticated s).
  { exists []. unfold ret. simpl. by rewrite app_nil_r. }
  pose proof (find_codex_cli_spawns w s) as Hf.
  destruct (find_codex_cli_spec w s) as (r & s1 & E & _).
  unfold bind at 1. rewrite E in *. simpl in Hf.
  destruct (opt_truthy r); simpl.
  2:{ exists []. rewrite app_nil_r. split; [| done]. run_monad. by spawns_norm. }
  destruct (String.eqb (auth_method s) "api_key" && truthy (api_key s)); simpl.
  { exists []. rewrite app_nil_r. split; [| done]. run_monad.
    destruct (has_nul (api_key s)); simpl; [done |].
    unfold spawns in *. simpl. rewrite !omap_app. simpl.
    by rewrite Hf, !app_nil_r. }
  destruct (String.eqb (auth_method s) "oauth"); simpl.
  2:{ exists []. unfold ret. simpl. by rewrite Hf, app_nil_r. }
  unfold bind at 1, log, emit, modify.
  destruct (trigger_oauth_login_spawns w
              (record (Log "OAuth authentication required. Triggering Codex login...") s1))
    as (l & Hl & Hlogin).
  exists l. split; [| done]. rewrite Hl, spawns_record. simpl.
  by rewrite app_nil_r, Hf.
Qed.

Lemma build_command_spawns w prompt s :
  spawns (snd (_build_command w prompt s)) = spawns s.
Proof.
  unfold _build_command.
  pose proof (find_codex_cli_spawns w s) as Hf.
  destruct (find_codex_cli_spec w s) as (r & s1 & E & _).
  unfold bind at 1. rewrite E in *. simpl in Hf.
  destruct (opt_truthy r); simpl; run_monad; done.
Qed.

(** ** The command builder *)

Lemma argv_of_config cp s s' p : same_config s s' -> argv_of cp s' p = argv_of cp s p.
Proof.
  intros (_ & _ & Hm & Hs & Hw & _ & Hf & He). unfold argv_of.
  by rewrite Hm, Hs, Hw, Hf, He.
Qed.

Lemma argv_of_last cp s p : last (argv_of cp s p) = Some p.
Proof.
  unfold argv_of. rewrite !app_assoc. apply last_snoc.
Qed.

(** The builder locates, then either fails for want of an executable or
    returns the laid-out vector. *)
Lemma build_command_spec w p s :
  exists r s', _find_codex_cli w s = (Return r, s')
    /\ _build_command w p s =
       (if opt_truthy r then Return (argv_of (from_option id EmptyString r) s p)
        else Raise (RuntimeError "Codex CLI not found"), s').
Proof.
  destruct (find_codex_cli_spec w s) as (r & s' & E & [C _ _ _] & _).
  exists r, s'. split; [done |].
  unfold _build_command, bind at 1. rewrite E.
  destruct (opt_truthy r); simpl; [| done].
  rewrite <- (argv_of_config _ _ _ p C).
  run_monad. unfold argv_of, valued_flag, switch.
  by destruct (truthy (model s')), (truthy (sandbox_mode s')), (full_auto s'),
    (enable_search s'), (truthy (working_directory s')).
Qed.

Lemma build_command_evolves w p s : evolves s (snd (_build_command w p s)).
Proof.
  destruct (build_command_spec w p s) as (r & s' & E & ->).
  destruct (find_codex_cli_spec w s) as (r' & s'' & E' & Hev & _).
  rewrite E in E'. by inversion E'; subst.
Qed.

(** ** [_process_message] *)

Lemma get_lookup_item key default d :
  Py.get key default d = from_option id default (lookup_item key d).
Proof.
  induction d as [| [k v] rest IH]; simpl; [done |].
  by destruct (String.eqb key k).
Qed.

Lemma coerce_prompt message :
  py_str match message with
         | PDict d => Py.get "content" (PStr (py_str message)) d
         | _ => message
         end = prompt_of message.
Proof.
  destruct message as [| | | | | d]; try done.
  unfold prompt_of. rewrite get_lookup_item.
  by destruct (lookup_item "content" d).
Qed.

Lemma process_message_processed w message s :
  match _ensure_authenticated w s with
  | (Raise e, s1) => _process_message w message s = (Raise e, s1)
  | (Return _, _) =>
      exists d s', _process_message w message s = (Return d, s')
        /\ processed w message s d s'
  end.
Proof.
  destruct (ensure_authenticated_spec w s) as (b & s1 & E & Hev & _).
  rewrite E.
  destruct b as [[|] | e]; cbv beta iota;
    unfold _process_message; cbv zeta; rewrite (coerce_prompt message);
    unfold bind at 1; rewrite E; simpl; [| | done].
  2:{ eexists _, _. split; [reflexivity |]. by constructor. }
  unfold try_except, bind at 1.
  destruct (_build_command w (prompt_of message) s1) as [[cmd | e] s2] eqn:B.
  2:{ assert (timeout s2 = timeout s) as Ht.
      { pose proof (build_command_evolves w (prompt_of message) s1) as H2.
        rewrite B in H2. destruct Hev as [(_&_&_&_&_&T1&_) _ _ _].
        destruct H2 as [(_&_&_&_&_&T2&_) _ _ _]. simpl in T2. congruence. }
      run_monad. destruct e; try rewrite Ht;
        (eexists _, _; split; [reflexivity |];
         match type of B with
         | _ = (Raise ?e, _) =>
             eapply (processed_build_failed w message s s1 e s2);
             [done | done | apply evolves_record | by spawns_norm]
         end). }
  assert (timeout s2 = timeout s) as Ht.
  { pose proof (build_command_evolves w (prompt_of message) s1) as H2.
    rewrite B in H2. destruct Hev as [(_&_&_&_&_&T1&_) _ _ _].
    destruct H2 as [(_&_&_&_&_&T2&_) _ _ _]. simpl in T2. congruence. }
  run_monad. fold (exec_env s2). fold (exec_cwd w s2). rewrite Ht.
  assert (forall d s3,
            d = run_result (prompt_of message) (timeout s)
                  (run w cmd (exec_env s2) (exec_cwd w s2) (timeout s)) ->
            evolves s2 s3 -> spawns s3 = spawns s2 ++ [cmd] ->
            processed w message s d s3) as Close.
  { intros d s3 -> ? ?. by eapply processed_run. }
  pose proof evolves_record as Rec.
  unfold run_result in Close.
  destruct (run w cmd (exec_env s2) (exec_cwd w s2) (timeout s)) as [a | e]; simpl.
  - destruct (returncode a =? 0)%Z; simpl.
    + destruct (_parse_json_output (stdout a)) as [parsed | e]; simpl.
      * eexists _, _. split; [reflexivity |]. apply Close; [done | |].
        -- eauto using evolves_trans.
        -- by spawns_norm.
      * destruct e; simpl; rewrite ?Ht;
          (eexists _, _; split; [reflexivity |]; apply Close; [done | |];
           [ eauto 6 using evolves_trans
           | by spawns_norm ]).
    + eexists _, _. split; [reflexivity |]. apply Close; [done | |].
      * eauto 6 using evolves_trans.
      * by spawns_norm.
  - destruct e; simpl; rewrite ?Ht;
      (eexists _, _; split; [reflexivity |]; apply Close; [done | |];
       [ eauto 6 using evolves_trans
       | by spawns_norm ]).
Qed.

Lemma processed_evolves w message s d s' :
  processed w message s d s' -> evolves s s'.
Proof.
  intros [s1 E | s1 e s2 s3 E B H3 _ | s1 cmd s2 s3 E B H3 _];
    destruct (ensure_authenticated_spec w s) as (b & s1' & E' & Hev & _);
    rewrite E in E'; inversion E'; subst; [done | |];
    pose proof (build_command_evolves w (prompt_of message) s1') as H2;
    rewrite B in H2; simpl in H2; eauto using evolves_trans.
Qed.

Lemma check_codex_installation_evolves w s :
  evolves s (snd (check_codex_installation w s)).
Proof.
  unfold check_codex_installation.
  destruct (find_codex_cli_spec w s) as (r & s1 & E & Hev & _).
  unfold bind at 1. rewrite E.
  destruct (opt_truthy r); simpl; [| done].
  run_monad. destruct (run w _ _ None 10); simpl;
    (eapply evolves_trans; [done | apply evolves_record]).
Qed.

(** ** Reachable states *)

Lemma exec_evolves w c s : evolves s (exec w c s).
Proof.
  destruct c as [| | message | message |]; simpl.
  - by destruct (find_codex_cli_spec w s) as (r & s' & -> & Hev & _).
  - by destruct (ensure_authenticated_spec w s) as (b & s' & -> & Hev & _).
  - apply build_command_evolves.
  - pose proof (process_message_processed w message s) as H.
    destruct (ensure_authenticated_spec w s) as (r & s1 & E & Hev & _).
    rewrite E in H. destruct r as [b | e].
    + destruct H as (d & s' & -> & Hp). by apply processed_evolves in Hp.
    + by rewrite H.
  - apply check_codex_installation_evolves.
Qed.

Lemma reachable_evolves s0 s : reachable s0 s -> evolves s0 s.
Proof.
  induction 1 as [| w c s _ IH]; [apply evolves_refl |].
  eapply evolves_trans; [exact IH | apply exec_evolves].
Qed.

(** On every state of an adapter's life the flag is up only with the
    executable path cached. *)
Lemma authenticated_has_path w0 params env s :
  reachable (__init__ w0 params env) s ->
  _authenticated s = true -> opt_truthy (_codex_path s) = true.
Proof.
  intros Hr Ha. apply reachable_evolves in Hr.
  destruct (ev_flag_set _ _ Hr Ha) as [H0 | [_ Hp]]; [discriminate | done].
Qed.

(** ** The parser *)

Lemma collect_text_ok items : forall msg,
  (exists msg', collect_text items msg = Return msg') <-> forallb item_ok items = true.
Proof.
  induction items as [| item rest IH]; intros msg; simpl.
  - split; eauto.
  - destruct item as [| | | | | | d]; simpl;
      try (split; [intros [? ?]; discriminate | discriminate]).
    destruct (eq_text (from_option id JNull (dict_lookup "type" d)) "text");
      simpl; [| apply IH].
    destruct (from_option id (JStr EmptyString) (dict_lookup "text" d)); simpl;
      try (split; [intros [? ?]; discriminate | discriminate]).
    apply IH.
Qed.

(** The parser returns exactly on the outputs whose decoded values are all
    of the expected shape, and then keeps every decoded value, in order. *)
Lemma parse_lines_ok lines : forall evs msg,
  (exists msg', parse_lines lines evs msg = Return (evs ++ decoded lines, msg'))
  <-> forallb event_ok (decoded lines) = true.
Proof.
  induction lines as [| line rest IH]; intros evs msg; simpl.
  - rewrite app_nil_r. split; eauto.
  - destruct (truthy line); simpl; [| apply IH].
    destruct (loads line) as [event |]; simpl; [| apply IH].
    rewrite (cons_middle event evs (decoded rest)), app_assoc.
    destruct event as [| | | | | | d]; simpl;
      try (split; [intros [? ?]; discriminate | discriminate]).
    destruct (eq_text (from_option id JNull (dict_lookup "type" d)) "message");
      simpl; [| apply IH].
    destruct (eq_text (from_option id JNull (dict_lookup "role" d)) "assistant");
      simpl; [| apply IH].
    destruct (py_iter (from_option id (JList []) (dict_lookup "content" d)))
      as [items | e]; simpl;
      [| split; [intros [? ?]; discriminate | discriminate]].
    destruct (collect_text items msg) as [msg1 | e] eqn:Hc; simpl.
    + assert (forallb item_ok items = true) as -> by (apply (collect_text_ok items msg); eauto).
      apply IH.
    + split; [intros [? ?]; discriminate |].
      intros [Hi _]%andb_prop. apply (collect_text_ok items msg) in Hi as [? ?].
      congruence.
Qed.

Lemma parse_lines_raises lines : forall evs msg,
  forallb event_ok (decoded lines) = false ->
  exists e, parse_lines lines evs msg = Raise e.
Proof.
  induction lines as [| line rest IH]; intros evs msg; simpl; [discriminate |].
  destruct (truthy line); simpl; [| apply IH].
  destruct (loads line) as [event |]; simpl; [| apply IH].
  destruct event as [| | | | | | d]; simpl; try (by intros _; eauto).
  destruct (eq_text (from_option id JNull (dict_lookup "type" d)) "message");
    simpl; [| apply IH].
  destruct (eq_text (from_option id JNull (dict_lookup "role" d)) "assistant");
    simpl; [| apply IH].
  destruct (py_iter (from_option id (JList []) (dict_lookup "content" d)))
    as [items | e]; simpl; [| eauto].
  destruct (collect_text items msg) as [msg1 | e] eqn:Hc; simpl; [| eauto].
  assert (forallb item_ok items = true) as -> by (apply (collect_text_ok items msg); eauto).
  apply IH.
Qed.

(** Where every line is within the limits of the decoder, the parser returns
    exactly on the outputs in which every decoded value is an object that,
    when an assistant message, has a content that can be iterated and yields
    only objects whose text, for a text item, is a string; it then keeps
    every decoded value, in order. *)
Lemma parse_json_output_ok output :
  if forallb event_ok (decoded (split nl (strip output)))
  then exists msg, _parse_json_output output
                   = Return (mkParsed (decoded (split nl (strip output))) msg output)
  else exists e, _parse_json_output output = Raise e.
Proof.
  unfold _parse_json_output.
  destruct (forallb event_ok (decoded (split nl (strip output)))) eqn:Hok.
  - apply (parse_lines_ok _ [] EmptyString) in Hok as [msg ->]. by exists msg.
  - apply (parse_lines_raises _ [] EmptyString) in Hok as [e ->]. by exists e.
Qed.

(** X13: on an output none of whose lines decodes the parser returns no
    event and an empty assistant message, with the output as raw output. *)
Lemma parse_json_output_nothing_decodes output :
  Forall (fun line => loads line = None) (split nl (strip output)) ->
  _parse_json_output output = Return (mkParsed [] EmptyString output).
Proof.
  unfold _parse_json_output. intros H.
  assert (forall evs msg, parse_lines (split nl (strip output)) evs msg
                          = Return (evs, msg)) as ->; [| done].
  induction H as [| line rest Hl _ IH]; intros evs msg; simpl; [done |].
  destruct (truthy line); simpl; [| apply IH]. rewrite Hl. apply IH.
Qed.

(** * The claims *)

(** ** Claims on the parser *)

(** C1, at the input where it fails: a line that holds the JSON number 42
    decodes, is appended, and then has no [get]; the [AttributeError] is not
    the fault the [try] absorbs, so it leaves [_parse_json_output]. *)
Theorem parse_json_output_raises_on_number :
  loads "42" = Some (JInt 42)
  /\ _parse_json_output "42"
     = Raise (AttributeError "'int' object has no attribute 'get'").
Proof. split; reflexivity. Qed.

(** C7: the assistant line followed by the line not-json gives the message
    Hello and one event; the second line does not decode and is skipped. *)
Theorem parse_json_output_round_trip :
  loads "not-json" = None
  /\ exists parsed,
       _parse_json_output (sample_line +:+ newline +:+ "not-json") = Return parsed
       /\ assistant_message parsed = "Hello"
       /\ length (events parsed) = 1%nat
       /\ loads sample_line = Some (hd JNull (events parsed)).
Proof.
  split; [reflexivity |].
  eexists. split; [vm_compute; reflexivity |]. by split_and!.
Qed.

(** ** The command builder *)

(** C3: where the executable is located, the builder returns the executable,
    [exec], [--json], then the model, sandbox, automation, web-search and
    working-directory flags, each only when configured, in that order, and
    the prompt last. *)
Theorem build_command_order w prompt s codex_path :
  fst (_find_codex_cli w s) = Return (Some codex_path) ->
  truthy codex_path = true ->
  exists cmd s', _build_command w prompt s = (Return cmd, s')
    /\ cmd = [codex_path; "exec"; "--json"]
             ++ valued_flag "--model" (model s)
             ++ valued_flag "--sandbox" (sandbox_mode s)
             ++ switch "--full-auto" (full_auto s)
             ++ switch "--search" (enable_search s)
             ++ valued_flag "--cd" (working_directory s)
             ++ [prompt]
    /\ last cmd = Some prompt.
Proof.
  intros Hfind Htruthy.
  destruct (build_command_spec w prompt s) as (r & s' & E & B).
  rewrite E in Hfind. simpl in Hfind. inversion Hfind; subst r.
  simpl in B. rewrite Htruthy in B.
  eexists _, s'. split; [exact B |]. split; [reflexivity |].
  apply argv_of_last.
Qed.

Lemma build_command_order_witness :
  exists cmd s', _build_command idle_world "hello" demo_state = (Return cmd, s')
    /\ cmd = ["/usr/bin/codex"; "exec"; "--json"; "--model"; "o4-mini";
              "--sandbox"; "read-only"; "--search"; "--cd"; "/srv"; "hello"]
    /\ last cmd = Some "hello".
Proof.
  exact (build_command_order idle_world "hello" demo_state "/usr/bin/codex"
           eq_refl eq_refl).
Defined.

(** ** The authenticator *)





(** C8: an adapter configured for api_key mode with an empty credential
    never authenticates: at every point of its life, on every machine, the
    authenticator returns [False], executable found or not. *)
Theorem ensure_authenticated_empty_key w0 params env s w :
  auth_method (__init__ w0 params env) = "api_key" ->
  api_key (__init__ w0 params env) = EmptyString ->
  reachable (__init__ w0 params env) s ->
  exists s', _ensure_authenticated w s = (Return false, s').
Proof.
  intros Hmode Hkey Hr. apply reachable_evolves in Hr.
  assert (can_authenticate s = false) as Hcan.
  { rewrite (can_authenticate_config _ _ (ev_config _ _ Hr)).
    unfold can_authenticate. by rewrite Hmode, Hkey. }
  assert (_authenticated s = false) as Hflag.
  { destruct (_authenticated s) eqn:Ha; [| done].
    destruct (ev_flag_set _ _ Hr Ha) as [H0 | [Hc _]]; [discriminate |].
    rewrite (can_authenticate_config _ _ (ev_config _ _ Hr)) in Hcan. congruence. }
  destruct (ensure_authenticated_spec w s) as (b & s' & E & Hev & Hb & _).
  exists s'. destruct b as [[|] | e]; [| done |].
  - destruct (ev_flag_set _ _ Hev (Hb eq_refl)) as [H | [H _]]; congruence.
  - apply ensure_authenticated_raises in E as (_ & _ & H & _).
    apply can_authenticate_api_key in H. congruence.
Qed.

Lemma ensure_authenticated_empty_key_witness :
  exists s', _ensure_authenticated idle_world
               (exec idle_world (Call_process_message (PStr "hi"))
                  (__init__ idle_world keyless_params ∅))
             = (Return false, s').
Proof.
  exact (ensure_authenticated_empty_key idle_world keyless_params ∅ _ idle_world
           eq_refl eq_refl
           (reach_call _ idle_world (Call_process_message (PStr "hi")) _
              (reach_init _))).
Defined.

(** C9: on an adapter's life, when the authenticator returns [True] the
    cached path is populated, so the builder called next, on any machine and
    for any prompt, returns a command and does not take its not-found
    branch. *)
Theorem authenticated_implies_path w0 params env s w s1 :
  reachable (__init__ w0 params env) s ->
  _ensure_authenticated w s = (Return true, s1) ->
  opt_truthy (_codex_path s1) = true
  /\ forall w' prompt,
       exists cmd, _build_command w' prompt s1 = (Return cmd, s1).
Proof.
  intros Hr E.
  assert (reachable (__init__ w0 params env) s1) as Hr1.
  { replace s1 with (exec w Call_ensure_authenticated s)
      by (simpl; by rewrite E).
    by constructor. }
  destruct (ensure_authenticated_spec w s) as (b & s' & E' & _ & Hb & _).
  rewrite E in E'. inversion E'; subst b s'.
  pose proof (authenticated_has_path _ _ _ _ Hr1 (Hb eq_refl)) as Hpath.
  split; [done |]. intros w' prompt.
  destruct (build_command_spec w' prompt s1) as (r & s' & F & B).
  destruct (find_codex_cli_spec w' s1) as (r' & s'' & F' & _ & _ & _ & _ & Hc).
  rewrite F in F'. inversion F'; subst r' s''.
  destruct (Hc Hpath) as [-> ->]. rewrite Hpath in B. eauto.
Qed.

Lemma authenticated_implies_path_witness :
  opt_truthy (_codex_path (snd (_ensure_authenticated idle_world demo_state))) = true
  /\ forall w' prompt,
       exists cmd,
         _build_command w' prompt (snd (_ensure_authenticated idle_world demo_state))
         = (Return cmd, snd (_ensure_authenticated idle_world demo_state)).
Proof.
  exact (authenticated_implies_path idle_world demo_params ∅ demo_state idle_world _
           (reach_init _) eq_refl).
Defined.

(** ** The result of [_process_message] *)

(** A call that gets as far as the child returns what [run_result] makes of
    the child's outcome. *)
Lemma process_message_run w message s s1 cmd s2 :
  _ensure_authenticated w s = (Return true, s1) ->
  _build_command w (prompt_of message) s1 = (Return cmd, s2) ->
  exists s',
    _process_message w message s
    = (Return (run_result (prompt_of message) (timeout s)
                 (run w cmd (exec_env s2) (exec_cwd w s2) (timeout s))), s').
Proof.
  intros E B.
  pose proof (process_message_processed w message s) as H.
  rewrite E in H. destruct H as (d & s' & P & H).
  exists s'. rewrite P.
  destruct H as [s1' E' | s1' e s2' s3 E' B' _ _ | s1' cmd' s2' s3 E' B' _ _];
    rewrite E in E'; inversion E'; subst s1';
    rewrite B in B'; inversion B'; by subst.
Qed.

(** C5: when the child of a call outlives the deadline, the result is the
    error of kind timeout, not execution_error, and its message spells the
    configured deadline. *)
Theorem process_message_timeout w message s s1 cmd s2 argv t :
  _ensure_authenticated w s = (Return true, s1) ->
  _build_command w (prompt_of message) s1 = (Return cmd, s2) ->
  run w cmd (exec_env s2) (exec_cwd w s2) (timeout s) = Raise (TimeoutExpired argv t) ->
  exists d s', _process_message w message s = (Return d, s')
    /\ d !! "error" = Some (VBool true)
    /\ d !! "error_type" = Some (VStr "timeout")
    /\ d !! "error_type" <> Some (VStr "execution_error")
    /\ d !! "message"
       = Some (VStr ("Codex execution timed out after " +:+ pretty (timeout s)
                     +:+ " seconds"))
    /\ d !! "original_message" = Some (VStr (prompt_of message)).
Proof.
  intros E B R.
  destruct (process_message_run w message s s1 cmd s2 E B) as (s' & P).
  rewrite R in P. eexists _, s'. split; [exact P |].
  by split_and!.
Qed.

Lemma process_message_timeout_witness :
  exists d s', _process_message slow_world (PStr "hi")
                 (__init__ slow_world demo_params ∅) = (Return d, s')
    /\ d !! "error" = Some (VBool true)
    /\ d !! "error_type" = Some (VStr "timeout")
    /\ d !! "error_type" <> Some (VStr "execution_error")
    /\ d !! "message" = Some (VStr "Codex execution timed out after 60 seconds")
    /\ d !! "original_message" = Some (VStr "hi").
Proof.
  exact (process_message_timeout slow_world (PStr "hi")
           (__init__ slow_world demo_params ∅) _ _ _ [] 60
           eq_refl eq_refl eq_refl).
Defined.

(** C6: when the child completes with an exit code other than zero, the
    result is the error of kind execution_error with that code as
    return_code and the captured stderr as message, or the fallback text
    when stderr is empty. *)
Theorem process_message_nonzero_exit w message s s1 cmd s2 result :
  _ensure_authenticated w s = (Return true, s1) ->
  _build_command w (prompt_of message) s1 = (Return cmd, s2) ->
  run w cmd (exec_env s2) (exec_cwd w s2) (timeout s) = Return result ->
  returncode result <> 0 ->
  exists d s', _process_message w message s = (Return d, s')
    /\ d !! "error" = Some (VBool true)
    /\ d !! "error_type" = Some (VStr "execution_error")
    /\ d !! "return_code" = Some (VInt (returncode result))
    /\ d !! "message"
       = Some (VStr (match stderr result with
                     | EmptyString => "Codex execution failed"
                     | text => text
                     end))
    /\ d !! "original_message" = Some (VStr (prompt_of message)).
Proof.
  intros E B R Hcode.
  destruct (process_message_run w message s s1 cmd s2 E B) as (s' & P).
  rewrite R in P. simpl in P.
  destruct (Z.eqb_spec (returncode result) 0) as [? | _]; [done |].
  eexists _, s'. split; [exact P |].
  split_and!; try done. by destruct (stderr result).
Qed.

Lemma process_message_nonzero_exit_witness :
  exists d s', _process_message failing_world (PStr "hi")
                 (__init__ failing_world demo_params ∅) = (Return d, s')
    /\ d !! "error" = Some (VBool true)
    /\ d !! "error_type" = Some (VStr "execution_error")
    /\ d !! "return_code" = Some (VInt 1)
    /\ d !! "message" = Some (VStr "bad sandbox flag")
    /\ d !! "original_message" = Some (VStr "hi").
Proof.
  refine (process_message_nonzero_exit failing_world (PStr "hi")
            (__init__ failing_world demo_params ∅) _ _ _
            (mkCompleted 1 EmptyString "bad sandbox flag")
            eq_refl eq_refl eq_refl _).
  simpl. lia.
Defined.

Lemma is_success_lookup prompt d :
  is_success prompt d ->
  d !! "success" = Some (VBool true)
  /\ d !! "error" = None
  /\ d !! "original_message" = Some (VStr prompt).
Proof. by intros (response & evs & ->). Qed.

Lemma is_error_lookup prompt d :
  is_error prompt d ->
  d !! "error" = Some (VBool true)
  /\ d !! "success" = None
  /\ (exists kind, In kind error_kinds /\ d !! "error_type" = Some (VStr kind))
  /\ (exists msg, d !! "message" = Some (VStr msg))
  /\ d !! "original_message" = Some (VStr prompt).
Proof.
  intros (kind & msg & Hk & [-> | (code & -> & ->)]); split_and!; eauto.
Qed.

Lemma fault_result_is_error prompt t e : is_error prompt (fault_result prompt t e).
Proof.
  destruct e; simpl; eexists _, _; (split; [| left; reflexivity]);
    simpl; tauto.
Qed.

Lemma run_result_shape prompt t o :
  is_success prompt (run_result prompt t o) \/ is_error prompt (run_result prompt t o).
Proof.
  destruct o as [result | e]; simpl; [| right; apply fault_result_is_error].
  destruct (returncode result =? 0)%Z.
  - destruct (_parse_json_output (stdout result)) as [parsed | e].
    + left. by eexists _, _.
    + right. apply fault_result_is_error.
  - right. exists "execution_error". eexists. split; [simpl; tauto |].
    right. by eexists.
Qed.

(** Once the authenticator has returned, [_process_message] returns one
    mapping: the success shape, or else the error shape with one of the four
    kinds, a message and the prompt; never both. *)
Lemma process_message_shapes w message s b s1 :
  _ensure_authenticated w s = (Return b, s1) ->
  exists d s', _process_message w message s = (Return d, s')
    /\ (is_success (prompt_of message) d \/ is_error (prompt_of message) d)
    /\ ~ (is_success (prompt_of message) d /\ is_error (prompt_of message) d)
    /\ (is_error (prompt_of message) d ->
        (exists kind, In kind error_kinds /\ d !! "error_type" = Some (VStr kind))
        /\ (exists msg, d !! "message" = Some (VStr msg))
        /\ d !! "original_message" = Some (VStr (prompt_of message))).
Proof.
  intros E.
  pose proof (process_message_processed w message s) as H.
  rewrite E in H. destruct H as (d & s' & P & H).
  exists d, s'. split; [done |]. split_and!.
  - destruct H.
    + right. exists "authentication_error". eexists.
      split; [simpl; tauto | by left].
    + right. apply fault_result_is_error.
    + apply run_result_shape.
  - intros [Hs He]. apply is_success_lookup in Hs. apply is_error_lookup in He.
    destruct Hs as (_ & Hs & _), He as (He & _). congruence.
  - intros He. apply is_error_lookup in He. tauto.
Qed.

(** What the authenticator raises leaves [_process_message] as it is: the
    call of the authenticator comes before the [try]. *)
Lemma process_message_propagates w message s e s1 :
  _ensure_authenticated w s = (Raise e, s1) ->
  _process_message w message s = (Raise e, s1).
Proof.
  intros E. pose proof (process_message_processed w message s) as H.
  by rewrite E in H.
Qed.

(** C2, at an input where it fails: for an adapter in api_key mode whose
    credential holds a NUL character, on a machine with codex on the search
    path, the assignment to [os.environ] raises [ValueError] inside the
    authenticator, which [_process_message] calls before its [try]; for
    every message the exception leaves the call and no mapping is returned. *)
Theorem process_message_raises_on_nul_credential message :
  _ensure_authenticated idle_world nul_state
  = (Raise (ValueError "embedded null byte"),
     snd (_ensure_authenticated idle_world nul_state))
  /\ _process_message idle_world message nul_state
     = (Raise (ValueError "embedded null byte"),
        snd (_ensure_authenticated idle_world nul_state))
  /\ ~ (exists d s', _process_message idle_world message nul_state = (Return d, s')).
Proof.
  assert (_ensure_authenticated idle_world nul_state
          = (Raise (ValueError "embedded null byte"),
             snd (_ensure_authenticated idle_world nul_state))) as E
    by reflexivity.
  pose proof (process_message_propagates _ message _ _ _ E) as P.
  split_and!; [done | done |].
  intros (d & s' & R). rewrite P in R. discriminate R.
Qed.

(** C10: in every result the call returns, [original_message] is the prompt
    the message stands for (the text of the content entry of a dict, of the
    whole dict when it has none, of the object itself otherwise), and every
    child the call has started is the login or carries that prompt as its
    last argument. *)
Theorem process_message_prompt w message s d s' :
  _process_message w message s = (Return d, s') ->
  d !! "original_message" = Some (VStr (prompt_of message))
  /\ prompt_of message
     = match message with
       | PDict items =>
           match lookup_item "content" items with
           | Some content => py_str content
           | None => py_str message
           end
       | _ => py_str message
       end
  /\ exists started,
       spawns s' = spawns s ++ started
       /\ Forall (fun argv => login_argv argv \/ last argv = Some (prompt_of message))
            started.
Proof.
  intros P.
  split; [| split; [by destruct message |]].
  - destruct (_ensure_authenticated w s) as [[b | e] s1] eqn:E.
    + destruct (process_message_shapes w message s b s1 E)
        as (d0 & s0 & P0 & Hshape & _).
      rewrite P in P0. inversion P0; subst d0 s0.
      destruct Hshape as [Hs | He].
      * by apply is_success_lookup in Hs as (_ & _ & ?).
      * by apply is_error_lookup in He as (_ & _ & _ & _ & ?).
    + rewrite (process_message_propagates _ _ _ _ _ E) in P. discriminate P.
  - pose proof (process_message_processed w message s) as H.
    pose proof (ensure_authenticated_spawns w s) as (l & Hl & Hlogin).
    assert (Forall (fun argv => login_argv argv \/ last argv = Some (prompt_of message)) l)
      as Hl'.
    { eapply Forall_impl; [exact Hlogin | tauto]. }
    destruct (_ensure_authenticated w s) as [[b | e] s0] eqn:E0;
      [| rewrite H in P; discriminate P].
    destruct H as (d1 & s1' & P1 & H). rewrite P in P1. inversion P1; subst d1 s1'.
    destruct H as [s1 E | s1 e s2 s3 E B _ H3 | s1 cmd s2 s3 E B _ H3];
      rewrite E0 in E; inversion E; subst; simpl in Hl.
    + by exists l.
    + pose proof (build_command_spawns w (prompt_of message) s1) as Hb.
      rewrite B in Hb. simpl in Hb.
      exists l. split; [by rewrite H3, Hb | done].
    + pose proof (build_command_spawns w (prompt_of message) s1) as Hb.
      rewrite B in Hb. simpl in Hb.
      exists (l ++ [cmd]). split; [by rewrite H3, Hb, Hl, app_assoc |].
      apply Forall_app. split; [done |]. constructor; [| done]. right.
      destruct (build_command_spec w (prompt_of message) s1) as (r & s2' & _ & B').
      rewrite B in B'. destruct (opt_truthy r); inversion B'.
      apply argv_of_last.
Qed.

Lemma process_message_prompt_witness :
  exists d s',
    _process_message idle_world
      (PDict [("role", PStr "user"); ("content", PStr "fix it")]) demo_state
    = (Return d, s')
    /\ d !! "original_message" = Some (VStr "fix it")
    /\ exists started,
         spawns s' = spawns demo_state ++ started
         /\ Forall (fun argv => login_argv argv \/ last argv = Some "fix it") started.
Proof.
  eexists _, _. split; [reflexivity |].
  pose proof (process_message_prompt idle_world
                (PDict [("role", PStr "user"); ("content", PStr "fix it")])
                demo_state _ _ eq_refl) as (H1 & _ & H3).
  split; [exact H1 | exact H3].
Defined.

(** The prompt of a dict with a content entry, of a dict without one and of
    another object, on examples. *)
Example prompt_of_examples :
  prompt_of (PDict [("role", PStr "user"); ("content", PStr "fix it")]) = "fix it"
  /\ prompt_of (PDict [("content", PInt 7)]) = "7"
  /\ prompt_of (PDict [("text", PStr "fix it")]) = "{'text': 'fix it'}"
  /\ prompt_of (PInt (-12)) = "-12"
  /\ prompt_of (PStr "fix it") = "fix it".
Proof. by split_and!. Qed.


(** * Further properties *)

(** ** Of the locator *)

Lemma first_existing_exact w paths : forall s,
  fst (first_existing w paths s) = Return (List.find (isfile w) paths)
  /\ _codex_path (snd (first_existing w paths s))
     = match List.find (isfile w) paths with
       | Some p => Some p
       | None => _codex_path s
       end.
Proof.
  induction paths as [| path rest IH]; intros s; [done |].
  simpl. run_monad. destruct (isfile w path); [done |].
  exact (IH (record (IsFile path) s)).
Qed.

Lemma find_codex_cli_exact w s :
  opt_truthy (_codex_path s) = false ->
  fst (_find_codex_cli w s) = Return (locate w)
  /\ _codex_path (snd (_find_codex_cli w s))
     = match locate w with
       | Some p => Some p
       | None => _codex_path s
       end.
Proof.
  intros Hc. unfold _find_codex_cli, locate, bind, get, emit, modify, ret.
  cbv beta iota. rewrite Hc.
  destruct (opt_truthy (which w "codex")) eqn:Hw.
  - cbn [fst snd]. split; [done |]. by destruct (which w "codex").
  - exact (first_existing_exact w (common_paths w) (record (Which "codex") s)).
Qed.

Lemma find_codex_cli_cached w s p :
  _codex_path s = Some p -> truthy p = true ->
  _find_codex_cli w s = (Return (Some p), s).
Proof.
  intros Hc Hp.
  destruct (find_codex_cli_spec w s) as (r & s' & E & _ & _ & _ & _ & Hcached).
  destruct Hcached as [-> ->]; [by rewrite Hc | by rewrite <- Hc].
Qed.

(** X1: a located executable is memoized for the life of the adapter: after
    a call has returned a path, every later call, whatever was called in
    between and whatever the machine has become, returns that path without
    a look at the machine. *)
Theorem find_codex_cli_memoized w s p s1 :
  _find_codex_cli w s = (Return (Some p), s1) ->
  truthy p = true ->
  forall s2 w', reachable s1 s2 ->
    _find_codex_cli w' s2 = (Return (Some p), s2).
Proof.
  intros E Hp s2 w' Hr.
  destruct (find_codex_cli_spec w s) as (r & s' & E' & _ & _ & _ & Hhit & _).
  rewrite E in E'. inversion E'; subst r s'.
  specialize (Hhit Hp).
  apply reachable_evolves in Hr.
  apply find_codex_cli_cached; [| done].
  rewrite (ev_cache_kept _ _ Hr); [done |]. by rewrite Hhit.
Qed.

Lemma find_codex_cli_memoized_witness :
  _find_codex_cli bare_world
    (exec bare_world Call_check_codex_installation
       (snd (_find_codex_cli idle_world demo_state)))
  = (Return (Some "/usr/bin/codex"),
     exec bare_world Call_check_codex_installation
       (snd (_find_codex_cli idle_world demo_state))).
Proof.
  exact (find_codex_cli_memoized idle_world demo_state "/usr/bin/codex" _
           eq_refl eq_refl _ bare_world
           (reach_call _ bare_world Call_check_codex_installation _
              (reach_init _))).
Defined.

(** X2: a miss is not memoized: after a call that found nothing, a call on
    a machine that has codex on its search path finds it. *)
Theorem find_codex_cli_retries w s r w' p :
  fst (_find_codex_cli w s) = Return r ->
  opt_truthy r = false ->
  which w' "codex" = Some p ->
  truthy p = true ->
  fst (_find_codex_cli w' (snd (_find_codex_cli w s))) = Return (Some p).
Proof.
  intros E Hr Hw Hp.
  assert (opt_truthy (_codex_path s) = false) as Hc.
  { destruct (opt_truthy (_codex_path s)) eqn:Hc; [| done].
    destruct (find_codex_cli_spec w s) as (r' & s' & E' & _ & _ & _ & _ & Hcached).
    rewrite E' in E. simpl in E. inversion E; subst r'.
    destruct (Hcached Hc) as [-> _]. congruence. }
  destruct (find_codex_cli_exact w s Hc) as [E1 E2].
  rewrite E in E1. inversion E1; subst r.
  assert (opt_truthy (_codex_path (snd (_find_codex_cli w s))) = false) as Hc'.
  { rewrite E2. by destruct (locate w). }
  destruct (find_codex_cli_exact w' _ Hc') as [E3 _].
  rewrite E3. unfold locate. rewrite Hw. simpl. by rewrite Hp.
Qed.

Lemma find_codex_cli_retries_witness :
  fst (_find_codex_cli idle_world
         (snd (_find_codex_cli bare_world (__init__ bare_world demo_params ∅))))
  = Return (Some "/usr/bin/codex").
Proof.
  exact (find_codex_cli_retries bare_world (__init__ bare_world demo_params ∅)
           None idle_world "/usr/bin/codex" eq_refl eq_refl eq_refl eq_refl).
Defined.

(** X3: with nothing cached the locator answers with the search-path hit
    when there is one, else with the first of the five fixed candidates that
    is a file, else with [None]; it caches what it found and otherwise
    leaves the cache alone. *)
Theorem find_codex_cli_order w s :
  opt_truthy (_codex_path s) = false ->
  fst (_find_codex_cli w s)
  = Return (if opt_truthy (which w "codex") then which w "codex"
            else List.find (isfile w)
                   [ expanduser w "~/.local/bin/codex";
                     expanduser w "~/bin/codex";
                     "/usr/local/bin/codex";
                     "C:\Program Files\codex\codex.exe";
                     expanduser w "~\AppData\Local\Programs\codex\codex.exe" ])
  /\ _codex_path (snd (_find_codex_cli w s))
     = match fst (_find_codex_cli w s) with
       | Return (Some p) => Some p
       | _ => _codex_path s
       end.
Proof.
  intros Hc. destruct (find_codex_cli_exact w s Hc) as [E1 E2].
  split; [exact E1 |]. by rewrite E2, E1.
Qed.

Lemma find_codex_cli_order_witness :
  fst (_find_codex_cli idle_world demo_state) = Return (Some "/usr/bin/codex")
  /\ _codex_path (snd (_find_codex_cli idle_world demo_state))
     = Some "/usr/bin/codex".
Proof.
  exact (find_codex_cli_order idle_world demo_state eq_refl).
Defined.

(** ** Of the authenticator *)

Lemma process_message_auth_failed w message s s1 :
  _ensure_authenticated w s = (Return false, s1) ->
  _process_message w message s
  = (Return (error_result (prompt_of message) "authentication_error"
               auth_failure_message), s1).
Proof.
  intros E.
  pose proof (process_message_processed w message s) as H.
  rewrite E in H. destruct H as (d & s' & P & H).
  rewrite P.
  destruct H as [s1' E' | s1' e s2 s3 E' _ _ _ | s1' cmd s2 s3 E' _ _ _];
    rewrite E in E'; by inversion E'.
Qed.

(** X4: where codex is nowhere to be found, an adapter that is not yet
    authenticated stays so: the authenticator returns [False] after logging
    the diagnostic, starts no child and leaves the environment alone, and
    [_process_message] answers any message with an authentication error
    without starting a child. *)
Theorem ensure_authenticated_not_installed w s :
  _authenticated s = false ->
  opt_truthy (_codex_path s) = false ->
  opt_truthy (locate w) = false ->
  (exists s', _ensure_authenticated w s = (Return false, s')
     /\ _authenticated s' = false
     /\ spawns s' = spawns s
     /\ environ s' = environ s
     /\ last (trace s') = Some (Log "Codex CLI not found. Please install it first."))
  /\ forall message,
       exists d s', _process_message w message s = (Return d, s')
         /\ d !! "error_type" = Some (VStr "authentication_error")
         /\ d !! "original_message" = Some (VStr (prompt_of message))
         /\ spawns s' = spawns s.
Proof.
  intros Hflag Hc Hloc.
  destruct (find_codex_cli_exact w s Hc) as [E1 _].
  destruct (find_codex_cli_spec w s) as (r & s1 & E & _ & Ha & He & _).
  rewrite E in E1. simpl in E1. inversion E1; subst r.
  pose proof (find_codex_cli_spawns w s) as Hs. rewrite E in Hs. simpl in Hs.
  assert (_ensure_authenticated w s
          = (Return false,
             record (Log "Codex CLI not found. Please install it first.") s1)) as En.
  { unfold _ensure_authenticated. unfold bind at 1, get. rewrite Hflag.
    unfold bind at 1. rewrite E. simpl. rewrite Hloc. simpl. by run_monad. }
  split.
  - eexists. split; [exact En |]. split_and!; simpl.
    + congruence.
    + by spawns_norm.
    + done.
    + apply last_snoc.
  - intros message. eexists _, _.
    split; [apply (process_message_auth_failed _ _ _ _ En) |].
    split_and!; try done. by spawns_norm.
Qed.

Lemma ensure_authenticated_not_installed_witness :
  (exists s', _ensure_authenticated bare_world (__init__ bare_world demo_params ∅)
              = (Return false, s')
     /\ _authenticated s' = false
     /\ spawns s' = spawns (__init__ bare_world demo_params ∅)
     /\ environ s' = environ (__init__ bare_world demo_params ∅)
     /\ last (trace s') = Some (Log "Codex CLI not found. Please install it first."))
  /\ forall message,
       exists d s', _process_message bare_world message
                      (__init__ bare_world demo_params ∅) = (Return d, s')
         /\ d !! "error_type" = Some (VStr "authentication_error")
         /\ d !! "original_message" = Some (VStr (prompt_of message))
         /\ spawns s' = spawns (__init__ bare_world demo_params ∅).
Proof.
  exact (ensure_authenticated_not_installed bare_world
           (__init__ bare_world demo_params ∅) eq_refl eq_refl eq_refl).
Defined.

(** X5: in oauth mode, with the executable located, an adapter that is not
    yet authenticated starts one child, the device login with a deadline of
    120 seconds under the inherited environment; it returns [True] and
    raises the flag exactly when that child ends with exit code zero, and
    [False] when it ends otherwise, times out or cannot be run; the
    environment is left alone. *)
Theorem ensure_authenticated_oauth w s codex_path :
  auth_method s = "oauth" ->
  _authenticated s = false ->
  fst (_find_codex_cli w s) = Return (Some codex_path) ->
  truthy codex_path = true ->
  exists s', _ensure_authenticated w s
             = (Return (login_succeeds w codex_path (environ s)), s')
    /\ _authenticated s' = login_succeeds w codex_path (environ s)
    /\ spawns s' = spawns s ++ [[codex_path; "login"; "--device-auth"]]
    /\ In (Spawn [codex_path; "login"; "--device-auth"] 120) (trace s')
    /\ environ s' = environ s.
Proof.
  intros Hmode Hflag Hfind Hp.
  destruct (find_codex_cli_spec w s) as (r & s1 & E & _ & Ha & He & Hhit & _).
  rewrite E in Hfind. simpl in Hfind. inversion Hfind; subst r.
  specialize (Hhit Hp).
  pose proof (find_codex_cli_spawns w s) as Hs. rewrite E in Hs. simpl in Hs.
  unfold _ensure_authenticated. unfold bind at 1, get. rewrite Hflag.
  unfold bind at 1. rewrite E. simpl. rewrite Hp, Hmode. simpl.
  unfold bind at 1, log, emit, modify.
  unfold _trigger_oauth_login. unfold bind at 1.
  rewrite (find_codex_cli_cached w _ codex_path) by done.
  simpl. rewrite Hp. simpl. run_monad. rewrite He. unfold login_succeeds.
  destruct (run w _ (environ s) None 120) as [result | e]; simpl.
  - destruct (returncode result =? 0)%Z; simpl.
    + destruct (truthy (stderr result)); simpl;
        match goal with
        | |- context [if truthy ?o then _ else _] => destruct (truthy o)
        end; simpl;
        (eexists; split; [reflexivity |]; simpl; split_and!; try done;
         [ spawns_norm; by rewrite Hs
         | rewrite !in_app_iff; simpl; tauto ]).
    + destruct (truthy (stderr result)); simpl;
        (eexists; split; [reflexivity |]; simpl; split_and!; try done;
         [ congruence
         | spawns_norm; by rewrite Hs
         | rewrite !in_app_iff; simpl; tauto ]).
  - destruct e; simpl;
      (eexists; split; [reflexivity |]; simpl; split_and!; try done;
       [ congruence
       | spawns_norm; by rewrite Hs
       | rewrite !in_app_iff; simpl; tauto ]).
Qed.

Lemma ensure_authenticated_oauth_witness :
  exists s', _ensure_authenticated granting_world
               (__init__ granting_world oauth_params ∅) = (Return true, s')
    /\ _authenticated s' = true
    /\ spawns s' = [["/usr/bin/codex"; "login"; "--device-auth"]]
    /\ In (Spawn ["/usr/bin/codex"; "login"; "--device-auth"] 120) (trace s')
    /\ environ s' = ∅.
Proof.
  exact (ensure_authenticated_oauth granting_world
           (__init__ granting_world oauth_params ∅) "/usr/bin/codex"
           eq_refl eq_refl eq_refl eq_refl).
Defined.

Lemma ensure_authenticated_quiet w s :
  auth_method s <> "oauth" ->
  spawns (snd (_ensure_authenticated w s)) = spawns s.
Proof.
  intros Hmode.
  unfold _ensure_authenticated. unfold bind at 1, get.
  destruct (_authenticated s); [done |].
  pose proof (find_codex_cli_spawns w s) as Hf.
  destruct (find_codex_cli_spec w s) as (r & s1 & E & _).
  unfold bind at 1. rewrite E in *. simpl in Hf.
  destruct (opt_truthy r); simpl.
  2:{ run_monad. by spawns_norm. }
  destruct (String.eqb (auth_method s) "api_key" && truthy (api_key s)); simpl.
  { run_monad. destruct (has_nul (api_key s)); simpl; [done |].
    unfold spawns in *. simpl. rewrite !omap_app. simpl.
    by rewrite Hf, !app_nil_r. }
  destruct (String.eqb_spec (auth_method s) "oauth") as [Heq | _]; [done |].
  by simpl.
Qed.

(** X6: the device login is started in oauth mode only: under any other
    authentication method the authenticator starts no child at all. *)
Theorem ensure_authenticated_no_child_outside_oauth w s :
  auth_method s <> "oauth" ->
  spawns (snd (_ensure_authenticated w s)) = spawns s.
Proof. apply ensure_authenticated_quiet. Qed.

Lemma ensure_authenticated_no_child_outside_oauth_witness :
  spawns (snd (_ensure_authenticated idle_world demo_state)) = spawns demo_state.
Proof.
  refine (ensure_authenticated_no_child_outside_oauth idle_world demo_state _).
  discriminate.
Defined.

(** X7: once the flag is up, by either method, it stays up for the life of
    the adapter, and the authenticator then returns [True] on any machine
    without changing anything, so no second login is started. *)
Theorem authentication_never_reset s1 s2 w :
  _authenticated s1 = true ->
  reachable s1 s2 ->
  _authenticated s2 = true
  /\ _ensure_authenticated w s2 = (Return true, s2).
Proof.
  intros H1 Hr.
  pose proof (ev_flag_kept _ _ (reachable_evolves _ _ Hr) H1) as H2.
  split; [done |].
  destruct (ensure_authenticated_spec w s2) as (b & s' & E & _ & _ & Hnow).
  by destruct (Hnow H2) as [-> ->].
Qed.

Lemma authentication_never_reset_witness :
  _authenticated
    (exec bare_world (Call_process_message (PStr "again")) logged_in_state) = true
  /\ _ensure_authenticated bare_world
       (exec bare_world (Call_process_message (PStr "again")) logged_in_state)
     = (Return true,
        exec bare_world (Call_process_message (PStr "again")) logged_in_state).
Proof.
  exact (authentication_never_reset logged_in_state _ bare_world eq_refl
           (reach_call _ bare_world (Call_process_message (PStr "again")) _
              (reach_init _))).
Defined.

(** ** Of the adapter's state *)

(** X8: no call changes the configuration: on every state of an adapter's
    life the authentication method, the credential, the model, the sandbox
    mode, the working directory, the timeout and the two switches are those
    it was constructed with. *)
Theorem configuration_never_changes s0 s :
  reachable s0 s ->
  auth_method s = auth_method s0 /\ api_key s = api_key s0
  /\ model s = model s0 /\ sandbox_mode s = sandbox_mode s0
  /\ working_directory s = working_directory s0 /\ timeout s = timeout s0
  /\ full_auto s = full_auto s0 /\ enable_search s = enable_search s0.
Proof. intros Hr. exact (ev_config _ _ (reachable_evolves _ _ Hr)). Qed.

Lemma configuration_never_changes_witness :
  auth_method (exec idle_world (Call_process_message (PStr "hi")) demo_state)
  = auth_method demo_state
  /\ api_key (exec idle_world (Call_process_message (PStr "hi")) demo_state)
     = api_key demo_state
  /\ model (exec idle_world (Call_process_message (PStr "hi")) demo_state)
     = model demo_state
  /\ sandbox_mode (exec idle_world (Call_process_message (PStr "hi")) demo_state)
     = sandbox_mode demo_state
  /\ working_directory (exec idle_world (Call_process_message (PStr "hi")) demo_state)
     = working_directory demo_state
  /\ timeout (exec idle_world (Call_process_message (PStr "hi")) demo_state)
     = timeout demo_state
  /\ full_auto (exec idle_world (Call_process_message (PStr "hi")) demo_state)
     = full_auto demo_state
  /\ enable_search (exec idle_world (Call_process_message (PStr "hi")) demo_state)
     = enable_search demo_state.
Proof.
  exact (configuration_never_changes demo_state _
           (reach_call _ idle_world (Call_process_message (PStr "hi")) _
              (reach_init _))).
Defined.

Lemma build_command_environ w p s :
  environ (snd (_build_command w p s)) = environ s.
Proof.
  destruct (build_command_spec w p s) as (r & s' & E & ->).
  destruct (find_codex_cli_spec w s) as (r' & s'' & E' & _ & _ & He & _).
  rewrite E in E'. by inversion E'; subst.
Qed.

Lemma check_codex_installation_environ w s :
  environ (snd (check_codex_installation w s)) = environ s.
Proof.
  unfold check_codex_installation.
  destruct (find_codex_cli_spec w s) as (r & s1 & E & _ & _ & He & _).
  unfold bind at 1. rewrite E.
  destruct (opt_truthy r); simpl; [| done].
  run_monad. by destruct (run w _ _ None 10).
Qed.

Lemma ensure_authenticated_environ w s :
  environ (snd (_ensure_authenticated w s)) = environ s
  \/ (String.eqb (auth_method s) "api_key" && truthy (api_key s) = true
      /\ environ (snd (_ensure_authenticated w s))
         = <["OPENAI_API_KEY" := api_key s]> (environ s)).
Proof.
  remember (snd (_ensure_authenticated w s)) as s' eqn:Hs'. revert Hs'.
  unfold _ensure_authenticated. unfold bind at 1, get.
  destruct (_authenticated s); [intros ->; by left |].
  destruct (find_codex_cli_spec w s) as (r & s1 & E & _ & _ & He & _).
  unfold bind at 1. rewrite E.
  destruct (opt_truthy r); simpl; [| intros ->; by left].
  destruct (String.eqb (auth_method s) "api_key" && truthy (api_key s)); simpl.
  { run_monad. destruct (has_nul (api_key s)); simpl; intros ->.
    - by left.
    - right. split; [done |]. simpl. by rewrite He. }
  destruct (String.eqb (auth_method s) "oauth"); simpl; [| intros ->; by left].
  unfold bind at 1, log, emit, modify.
  destruct (trigger_oauth_login_spec w
              (record (Log "OAuth authentication required. Triggering Codex login...") s1))
    as (b & s2 & E2 & _ & _ & _ & _ & He2 & _).
  rewrite E2. intros ->. left. simpl. by rewrite He2.
Qed.

Lemma process_message_environ w message s :
  environ (snd (_process_message w message s))
  = environ (snd (_ensure_authenticated w s)).
Proof.
  unfold _process_message. cbv zeta. rewrite (coerce_prompt message).
  destruct (ensure_authenticated_spec w s) as (b & s1 & E & _).
  unfold bind at 1. rewrite E.
  destruct b as [[|] | e0]; simpl; [| done | done].
  unfold try_except, bind at 1.
  pose proof (build_command_environ w (prompt_of message) s1) as Hb.
  destruct (_build_command w (prompt_of message) s1) as [[cmd | e] s2];
    simpl in Hb.
  2:{ run_monad. by destruct e. }
  run_monad.
  destruct (run w cmd _ _ (timeout s2)) as [a | e]; simpl.
  - destruct (returncode a =? 0)%Z; simpl; [| done].
    destruct (_parse_json_output (stdout a)) as [parsed | e]; simpl; [done |].
    by destruct e.
  - by destruct e.
Qed.

(** X9: the adapter changes one variable of the environment at most: on
    every state of its life [os.environ] is the one it started with, or that
    one with OPENAI_API_KEY set to the credential, and the latter only for a
    configuration in api_key mode with a credential. *)
Theorem environment_touched_once s0 s :
  reachable s0 s ->
  environ s = environ s0
  \/ (auth_method s0 = "api_key" /\ truthy (api_key s0) = true
      /\ environ s = <["OPENAI_API_KEY" := api_key s0]> (environ s0)).
Proof.
  induction 1 as [| w c s Hr IH]; [by left |].
  pose proof (ev_config _ _ (reachable_evolves _ _ Hr)) as (Hm & Hk & _).
  assert (environ (snd (_ensure_authenticated w s)) = environ s0
          \/ (auth_method s0 = "api_key" /\ truthy (api_key s0) = true
              /\ environ (snd (_ensure_authenticated w s))
                 = <["OPENAI_API_KEY" := api_key s0]> (environ s0))) as Hens.
  { destruct (ensure_authenticated_environ w s) as [-> | [Hmode ->]]; [done |].
    rewrite Hm, Hk in Hmode. apply andb_prop in Hmode as [Hmode Hkey].
    apply String.eqb_eq in Hmode. right. split_and!; try done.
    rewrite Hk.
    destruct IH as [-> | (_ & _ & ->)]; [done | apply insert_insert_eq]. }
  destruct c as [| | message | message |]; simpl.
  - destruct (find_codex_cli_spec w s) as (r & s' & E & _ & _ & He & _).
    rewrite E. simpl. by rewrite He.
  - exact Hens.
  - by rewrite build_command_environ.
  - by rewrite process_message_environ.
  - by rewrite check_codex_installation_environ.
Qed.

Lemma environment_touched_once_witness :
  environ (exec idle_world (Call_process_message (PStr "hi")) demo_state)
  = environ demo_state
  \/ (auth_method demo_state = "api_key" /\ truthy (api_key demo_state) = true
      /\ environ (exec idle_world (Call_process_message (PStr "hi")) demo_state)
         = <["OPENAI_API_KEY" := api_key demo_state]> (environ demo_state)).
Proof.
  exact (environment_touched_once demo_state _
           (reach_call _ idle_world (Call_process_message (PStr "hi")) _
              (reach_init _))).
Defined.

(** ** Of the command builder *)

Lemma build_command_cached w prompt s p :
  _codex_path s = Some p -> truthy p = true ->
  _build_command w prompt s = (Return (argv_of p s prompt), s).
Proof.
  intros Hc Hp.
  destruct (build_command_spec w prompt s) as (r & s' & E & ->).
  rewrite (find_codex_cli_cached w s p Hc Hp) in E. inversion E; subst.
  simpl. by rewrite Hp.
Qed.

(** X10: where codex is nowhere to be found and nothing is cached, the
    builder raises RuntimeError with the text Codex CLI not found, whatever
    the prompt, and starts no child. *)
Theorem build_command_not_installed w prompt s :
  opt_truthy (_codex_path s) = false ->
  opt_truthy (locate w) = false ->
  fst (_build_command w prompt s) = Raise (RuntimeError "Codex CLI not found")
  /\ spawns (snd (_build_command w prompt s)) = spawns s.
Proof.
  intros Hc Hloc. split; [| apply build_command_spawns].
  destruct (build_command_spec w prompt s) as (r & s' & E & ->).
  destruct (find_codex_cli_exact w s Hc) as [E1 _].
  rewrite E in E1. simpl in E1. inversion E1; subst r.
  by rewrite Hloc.
Qed.

Lemma build_command_not_installed_witness :
  fst (_build_command bare_world "hello" (__init__ bare_world demo_params ∅))
  = Raise (RuntimeError "Codex CLI not found")
  /\ spawns (snd (_build_command bare_world "hello"
                    (__init__ bare_world demo_params ∅)))
     = spawns (__init__ bare_world demo_params ∅).
Proof.
  exact (build_command_not_installed bare_world "hello"
           (__init__ bare_world demo_params ∅) eq_refl eq_refl).
Defined.

(** ** Of the parser *)

Lemma append_assoc (a b c : string) : (a +:+ b) +:+ c = a +:+ (b +:+ c).
Proof.
  induction a as [| x a IH]; [done |].
  change (String x ((a +:+ b) +:+ c) = String x (a +:+ (b +:+ c))).
  by rewrite IH.
Qed.

Lemma append_nil_r (a : string) : a +:+ EmptyString = a.
Proof.
  induction a as [| x a IH]; [done |].
  change (String x (a +:+ EmptyString) = String x a). by rewrite IH.
Qed.

Lemma collect_text_value items : forall msg msg',
  collect_text items msg = Return msg' ->
  msg' = msg +:+ concat_texts text_of_item items.
Proof.
  induction items as [| item rest IH]; intros msg msg' H; simpl in *.
  - inversion H. by rewrite append_nil_r.
  - destruct item as [| | | | | | d]; simpl in *; try discriminate.
    destruct (eq_text (from_option id JNull (dict_lookup "type" d)) "text");
      simpl in *; [| by apply IH in H].
    destruct (from_option id (JStr EmptyString) (dict_lookup "text" d)) as [| | | | t | |];
      simpl in *; try discriminate.
    apply IH in H. by rewrite H, append_assoc.
Qed.

Lemma parse_lines_value lines : forall evs msg evs' msg',
  parse_lines lines evs msg = Return (evs', msg') ->
  evs' = evs ++ decoded lines
  /\ msg' = msg +:+ concat_texts text_of_event (decoded lines).
Proof.
  induction lines as [| line rest IH]; intros evs msg evs' msg' H; simpl in *.
  - inversion H. by rewrite app_nil_r, append_nil_r.
  - destruct (truthy line); simpl in H; [| by apply IH].
    destruct (loads line) as [event |]; simpl in H; [| by apply IH].
    rewrite (cons_middle event evs (decoded rest)), app_assoc. simpl.
    destruct event as [| | | | | | d]; simpl in H; try discriminate.
    simpl.
    destruct (eq_text (from_option id JNull (dict_lookup "type" d)) "message");
      simpl in *; [| by apply IH].
    destruct (eq_text (from_option id JNull (dict_lookup "role" d)) "assistant");
      simpl in *; [| by apply IH].
    destruct (py_iter (from_option id (JList []) (dict_lookup "content" d)))
      as [items | e]; simpl in *; [| discriminate].
    destruct (collect_text items msg) as [msg1 | e] eqn:Hc; simpl in H;
      [| discriminate].
    apply collect_text_value in Hc. subst msg1.
    apply IH in H as [-> ->]. by rewrite append_assoc.
Qed.

Lemma parse_json_output_exn output e :
  _parse_json_output output = Raise e ->
  exists msg, e = AttributeError msg \/ e = TypeError msg.
Proof.
  unfold _parse_json_output.
  assert (forall items msg, collect_text items msg = Raise e ->
          exists m, e = AttributeError m \/ e = TypeError m) as Hcollect.
  { induction items as [| item rest IH]; intros msg H; simpl in H; [discriminate |].
    destruct item as [| | | | | | d]; simpl in H;
      try (inversion H; eauto; fail).
    destruct (eq_text (from_option id JNull (dict_lookup "type" d)) "text");
      simpl in H; [| by eapply IH].
    destruct (from_option id (JStr EmptyString) (dict_lookup "text" d));
      simpl in H; first [by eapply IH | inversion H; eauto]. }
  assert (forall lines evs msg, parse_lines lines evs msg = Raise e ->
          exists m, e = AttributeError m \/ e = TypeError m) as Hlines.
  { induction lines as [| line rest IH]; intros evs msg H; simpl in H; [discriminate |].
    destruct (truthy line); simpl in H; [| by eapply IH].
    destruct (loads line) as [event |]; simpl in H; [| by eapply IH].
    destruct event as [| | | | | | d]; simpl in H;
      try (inversion H; eauto; fail).
    destruct (eq_text (from_option id JNull (dict_lookup "type" d)) "message");
      simpl in H; [| by eapply IH].
    destruct (eq_text (from_option id JNull (dict_lookup "role" d)) "assistant");
      simpl in H; [| by eapply IH].
    destruct (from_option id (JList []) (dict_lookup "content" d)) as [| | | | t | l | d'];
      simpl in H; try (inversion H; eauto; fail);
      match type of H with
      | context [collect_text ?items ?m] =>
          destruct (collect_text items m) eqn:Hc; simpl in H;
          [by eapply IH | inversion H; subst; by eapply Hcollect]
      end. }
  intros H.
  destruct (parse_lines (split nl (strip output)) [] EmptyString) eqn:Hp;
    simpl in H; [discriminate |].
  inversion H; subst. by eapply Hlines.
Qed.

(** X11: when the parser returns, its events are the values the non-empty
    lines of the stripped output decode to, in order; its raw output is the
    output as given; and its assistant message is the texts of the text
    items of the assistant messages among them, in order, joined without a
    separator. *)
Theorem parse_json_output_value output parsed :
  _parse_json_output output = Return parsed ->
  events parsed = decoded (split nl (strip output))
  /\ raw_output parsed = output
  /\ assistant_message parsed = concat_texts text_of_event (events parsed).
Proof.
  unfold _parse_json_output. intros H.
  destruct (parse_lines (split nl (strip output)) [] EmptyString) as [[evs msg] | e]
    eqn:Hp; simpl in H; [| discriminate].
  inversion H; subst. simpl.
  by apply parse_lines_value in Hp as [-> ->].
Qed.

Lemma parse_json_output_value_witness :
  exists parsed, _parse_json_output two_texts = Return parsed
    /\ length (events parsed) = 3%nat
    /\ assistant_message parsed = "AB"
    /\ events parsed = decoded (split nl (strip two_texts))
    /\ raw_output parsed = two_texts
    /\ assistant_message parsed = concat_texts text_of_event (events parsed).
Proof.
  eexists. split; [vm_compute; reflexivity |].
  split; [reflexivity |]. split; [reflexivity |].
  exact (parse_json_output_value two_texts _ eq_refl).
Defined.

(** X12: a decoded value of another shape is fatal: on an output with a line
    that decodes to a value that is not an object, or to an assistant
    message whose content cannot be iterated, or holds an item that is not
    an object, or holds a text item whose text is not a string, the parser
    raises instead of skipping the line. *)
Theorem parse_json_output_raises_on_shape output :
  forallb event_ok (decoded (split nl (strip output))) = false ->
  exists e, _parse_json_output output = Raise e.
Proof.
  intros Hok. unfold _parse_json_output.
  apply (parse_lines_raises _ [] EmptyString) in Hok as [e ->]. by exists e.
Qed.

Lemma parse_json_output_raises_on_shape_witness :
  exists e, _parse_json_output mixed_shapes = Raise e.
Proof.
  exact (parse_json_output_raises_on_shape mixed_shapes eq_refl).
Defined.

Lemma parse_json_output_nothing_decodes_witness :
  _parse_json_output status_only = Return (mkParsed [] EmptyString status_only).
Proof.
  apply (parse_json_output_nothing_decodes status_only).
  replace (split nl (strip status_only)) with ["Thinking..."; "not-json"]
    by (vm_compute; reflexivity).
  repeat (constructor; [vm_compute; reflexivity |]). constructor.
Defined.

(** ** Of [_process_message] *)

(** X14: when the child of a call ends with exit code zero and its output
    parses, the result is the success mapping: the flag success, the
    parser's assistant message as response, its events, and the prompt; it
    has no error key. *)
Theorem process_message_success w message s s1 cmd s2 result parsed :
  _ensure_authenticated w s = (Return true, s1) ->
  _build_command w (prompt_of message) s1 = (Return cmd, s2) ->
  run w cmd (exec_env s2) (exec_cwd w s2) (timeout s) = Return result ->
  returncode result = 0 ->
  _parse_json_output (stdout result) = Return parsed ->
  exists d s', _process_message w message s = (Return d, s')
    /\ d !! "success" = Some (VBool true)
    /\ d !! "response" = Some (VStr (assistant_message parsed))
    /\ d !! "events" = Some (VEvents (events parsed))
    /\ d !! "original_message" = Some (VStr (prompt_of message))
    /\ d !! "error" = None
    /\ size d = 4%nat.
Proof.
  intros E B R Hcode Hparse.
  destruct (process_message_run w message s s1 cmd s2 E B) as (s' & P).
  rewrite R in P. simpl in P. rewrite Hcode, Hparse in P. simpl in P.
  eexists _, s'. split; [exact P |]. by split_and!.
Qed.

Lemma process_message_success_witness :
  exists d s', _process_message answering_world (PStr "hi")
                 (__init__ answering_world demo_params ∅) = (Return d, s')
    /\ d !! "success" = Some (VBool true)
    /\ d !! "response" = Some (VStr "Hello")
    /\ d !! "events"
       = Some (VEvents
                 [JDict [("type", JStr "message"); ("role", JStr "assistant");
                         ("content",
                          JList [JDict [("type", JStr "text");
                                        ("text", JStr "Hello")]])]])
    /\ d !! "original_message" = Some (VStr "hi")
    /\ d !! "error" = None
    /\ size d = 4%nat.
Proof.
  exact (process_message_success answering_world (PStr "hi")
           (__init__ answering_world demo_params ∅) _ _ _
           (mkCompleted 0 sample_line EmptyString)
           (mkParsed _ "Hello" sample_line)
           eq_refl eq_refl eq_refl eq_refl eq_refl).
Defined.

(** X15: when the child ends with exit code zero but the parser raises on
    its output, the reply is lost: the result is the error of kind
    exception whose message is the text of what the parser raised. *)
Theorem process_message_parse_fault w message s s1 cmd s2 result e :
  _ensure_authenticated w s = (Return true, s1) ->
  _build_command w (prompt_of message) s1 = (Return cmd, s2) ->
  run w cmd (exec_env s2) (exec_cwd w s2) (timeout s) = Return result ->
  returncode result = 0 ->
  _parse_json_output (stdout result) = Raise e ->
  exists d s', _process_message w message s = (Return d, s')
    /\ d !! "error" = Some (VBool true)
    /\ d !! "error_type" = Some (VStr "exception")
    /\ d !! "message" = Some (VStr (exn_str e))
    /\ d !! "original_message" = Some (VStr (prompt_of message))
    /\ d !! "events" = None.
Proof.
  intros E B R Hcode Hparse.
  destruct (process_message_run w message s s1 cmd s2 E B) as (s' & P).
  rewrite R in P. simpl in P. rewrite Hcode, Hparse in P. simpl in P.
  eexists _, s'. split; [exact P |].
  destruct (parse_json_output_exn _ _ Hparse) as (msg & [-> | ->]);
    by split_and!.
Qed.

Lemma process_message_parse_fault_witness :
  exists d s', _process_message scalar_world (PStr "hi")
                 (__init__ scalar_world demo_params ∅) = (Return d, s')
    /\ d !! "error" = Some (VBool true)
    /\ d !! "error_type" = Some (VStr "exception")
    /\ d !! "message" = Some (VStr "'int' object has no attribute 'get'")
    /\ d !! "original_message" = Some (VStr "hi")
    /\ d !! "events" = None.
Proof.
  exact (process_message_parse_fault scalar_world (PStr "hi")
           (__init__ scalar_world demo_params ∅) _ _ _
           (mkCompleted 0 "42" EmptyString)
           (AttributeError "'int' object has no attribute 'get'")
           eq_refl eq_refl eq_refl eq_refl eq_refl).
Defined.

(** X16: when the authenticator returns [False] the call stops there: the
    result is the error of kind authentication_error with its fixed message
    and the prompt, and the state is the one the authenticator left, so no
    command is built and no exec child is started. *)
Theorem process_message_auth_failure w message s s1 :
  _ensure_authenticated w s = (Return false, s1) ->
  exists d, _process_message w message s = (Return d, s1)
    /\ d !! "error" = Some (VBool true)
    /\ d !! "error_type" = Some (VStr "authentication_error")
    /\ d !! "message"
       = Some (VStr "Failed to authenticate with Codex CLI. Please check your credentials.")
    /\ d !! "original_message" = Some (VStr (prompt_of message))
    /\ d !! "return_code" = None.
Proof.
  intros E. eexists. split; [apply (process_message_auth_failed _ _ _ _ E) |].
  by split_and!.
Qed.

Lemma process_message_auth_failure_witness :
  exists d, _process_message idle_world (PStr "hi")
              (__init__ idle_world keyless_params ∅)
            = (Return d,
               snd (_ensure_authenticated idle_world
                      (__init__ idle_world keyless_params ∅)))
    /\ d !! "error" = Some (VBool true)
    /\ d !! "error_type" = Some (VStr "authentication_error")
    /\ d !! "message"
       = Some (VStr "Failed to authenticate with Codex CLI. Please check your credentials.")
    /\ d !! "original_message" = Some (VStr "hi")
    /\ d !! "return_code" = None.
Proof.
  exact (process_message_auth_failure idle_world (PStr "hi")
           (__init__ idle_world keyless_params ∅) _ eq_refl).
Defined.

(** X17: when the child cannot be run, for a fault other than the deadline,
    the result is the error of kind exception whose message is the text of
    the fault. *)
Theorem process_message_spawn_failure w message s s1 cmd s2 e :
  _ensure_authenticated w s = (Return true, s1) ->
  _build_command w (prompt_of message) s1 = (Return cmd, s2) ->
  run w cmd (exec_env s2) (exec_cwd w s2) (timeout s) = Raise e ->
  (forall argv t, e <> TimeoutExpired argv t) ->
  exists d s', _process_message w message s = (Return d, s')
    /\ d !! "error" = Some (VBool true)
    /\ d !! "error_type" = Some (VStr "exception")
    /\ d !! "message" = Some (VStr (exn_str e))
    /\ d !! "original_message" = Some (VStr (prompt_of message)).
Proof.
  intros E B R Hnot.
  destruct (process_message_run w message s s1 cmd s2 E B) as (s' & P).
  rewrite R in P. simpl in P.
  eexists _, s'. split; [exact P |].
  destruct e as [| | | | argv t |]; try by split_and!.
  by destruct (Hnot argv t).
Qed.

Lemma process_message_spawn_failure_witness :
  exists d s', _process_message idle_world (PStr "hi") demo_state = (Return d, s')
    /\ d !! "error" = Some (VBool true)
    /\ d !! "error_type" = Some (VStr "exception")
    /\ d !! "message" = Some (VStr "not started")
    /\ d !! "original_message" = Some (VStr "hi").
Proof.
  refine (process_message_spawn_failure idle_world (PStr "hi") demo_state _ _ _
            (OtherError "not started") eq_refl eq_refl eq_refl _).
  discriminate.
Defined.

(** X18: an authenticated adapter with its path cached serves a message
    with one child and no lookup: it starts the laid-out command for the
    prompt, under the environment with the credential overlaid in api_key
    mode, in the working directory when that is a directory, with the
    configured timeout; its result is what is made of that child's outcome,
    and the environment and the cache are left as they are. *)
Theorem process_message_steady w message s codex_path :
  _authenticated s = true ->
  _codex_path s = Some codex_path ->
  truthy codex_path = true ->
  exists s',
    _process_message w message s
    = (Return (run_result (prompt_of message) (timeout s)
                 (run w (argv_of codex_path s (prompt_of message))
                    (exec_env s) (exec_cwd w s) (timeout s))), s')
    /\ spawns s' = spawns s ++ [argv_of codex_path s (prompt_of message)]
    /\ environ s' = environ s
    /\ _codex_path s' = Some codex_path.
Proof.
  intros Ha Hc Hp.
  destruct (ensure_authenticated_spec w s) as (b & s1 & E & _ & _ & Hnow).
  destruct (Hnow Ha) as [-> ->].
  pose proof (build_command_cached w (prompt_of message) s codex_path Hc Hp) as B.
  pose proof (process_message_processed w message s) as H.
  rewrite E in H. destruct H as (d & s' & P & H).
  exists s'. rewrite P.
  pose proof (process_message_environ w message s) as Henv.
  rewrite P, E in Henv. simpl in Henv.
  destruct H as [s1' E' | s1' e s2' s3 E' B' _ _ | s1' cmd' s2' s3 E' B' Hev Hsp];
    rewrite E in E'; inversion E'; subst s1';
    rewrite B in B'; inversion B'; subst.
  split_and!; try done.
  rewrite (ev_cache_kept _ _ Hev); [done |]. by rewrite Hc.
Qed.

Lemma process_message_steady_witness :
  exists s',
    _process_message answering_world (PStr "hi") logged_in_state
    = (Return (run_result "hi" 300
                 (Return (mkCompleted 0 sample_line EmptyString))), s')
    /\ spawns s'
       = spawns logged_in_state
         ++ [["/usr/bin/codex"; "exec"; "--json"; "--model"; "o4-mini";
              "--sandbox"; "read-only"; "--cd"; "/srv"; "hi"]]
    /\ environ s' = environ logged_in_state
    /\ _codex_path s' = Some "/usr/bin/codex".
Proof.
  exact (process_message_steady answering_world (PStr "hi") logged_in_state
           "/usr/bin/codex" eq_refl eq_refl eq_refl).
Defined.

(** ** Of [check_codex_installation] *)

Lemma check_codex_installation_run w s r s1 :
  _find_codex_cli w s = (Return r, s1) ->
  check_codex_installation w s
  = if opt_truthy r then
      let codex_path := from_option id EmptyString r in
      (Return
         (match version_probe w codex_path s1 with
          | Return result =>
              dict [("installed", VBool true); ("path", VStr codex_path);
                    ("version", VStr (version_of (Return result)))]
          | Raise e =>
              dict [("installed", VBool true); ("path", VStr codex_path);
                    ("version", VStr "unknown"); ("error", VStr (exn_str e))]
          end),
       record (Spawn [codex_path; "--version"] 10) s1)
    else
      (Return (dict [("installed", VBool false);
                     ("message", VStr "Codex CLI not found. Please install from https://developers.openai.com/codex/cli/")]),
       s1).
Proof.
  intros E. unfold check_codex_installation. unfold bind at 1. rewrite E.
  destruct (opt_truthy r); simpl; [| done].
  run_monad. unfold version_probe.
  by destruct (run w _ _ None 10).
Qed.

(** X19: where codex is nowhere to be found and nothing is cached, the
    installation check reports installed as [False] with the pointer to the
    installation page and neither path nor version, and starts no child. *)
Theorem check_codex_installation_missing w s :
  opt_truthy (_codex_path s) = false ->
  opt_truthy (locate w) = false ->
  exists d s', check_codex_installation w s = (Return d, s')
    /\ d !! "installed" = Some (VBool false)
    /\ d !! "message"
       = Some (VStr "Codex CLI not found. Please install from https://developers.openai.com/codex/cli/")
    /\ d !! "path" = None
    /\ d !! "version" = None
    /\ spawns s' = spawns s
    /\ opt_truthy (_codex_path s') = false.
Proof.
  intros Hc Hloc.
  destruct (find_codex_cli_exact w s Hc) as [Hr Hp].
  pose proof (find_codex_cli_spawns w s) as Hs.
  destruct (find_codex_cli_spec w s) as (r & s1 & E & _).
  rewrite E in Hr, Hp, Hs. simpl in Hr, Hp, Hs. inversion Hr; subst r.
  rewrite (check_codex_installation_run w s _ s1 E), Hloc.
  eexists _, s1. split; [reflexivity |]. split_and!; try done.
  rewrite Hp. by destruct (locate w).
Qed.

Lemma check_codex_installation_missing_witness :
  exists d s', check_codex_installation bare_world
                 (__init__ bare_world no_params ∅) = (Return d, s')
    /\ d !! "installed" = Some (VBool false)
    /\ d !! "message"
       = Some (VStr "Codex CLI not found. Please install from https://developers.openai.com/codex/cli/")
    /\ d !! "path" = None
    /\ d !! "version" = None
    /\ spawns s' = spawns (__init__ bare_world no_params ∅)
    /\ opt_truthy (_codex_path s') = false.
Proof.
  exact (check_codex_installation_missing bare_world
           (__init__ bare_world no_params ∅) eq_refl eq_refl).
Defined.

(** X20: with the executable located, the installation check starts one
    child, the version probe of that path under the inherited environment
    with a deadline of ten seconds, and never raises: it reports installed
    as [True] with the path; the version is the stripped output of a probe
    that ended with exit code zero and unknown otherwise; the key error is
    there exactly when the probe raised, with the text of what it raised.
    The flag and the environment are left alone and the path is cached. *)
Theorem check_codex_installation_found w s codex_path :
  fst (_find_codex_cli w s) = Return (Some codex_path) ->
  truthy codex_path = true ->
  exists d s', check_codex_installation w s = (Return d, s')
    /\ d !! "installed" = Some (VBool true)
    /\ d !! "path" = Some (VStr codex_path)
    /\ d !! "version" = Some (VStr (version_of (version_probe w codex_path s)))
    /\ d !! "error"
       = match version_probe w codex_path s with
         | Return _ => None
         | Raise e => Some (VStr (exn_str e))
         end
    /\ d !! "message" = None
    /\ spawns s' = spawns s ++ [[codex_path; "--version"]]
    /\ _codex_path s' = Some codex_path
    /\ _authenticated s' = _authenticated s
    /\ environ s' = environ s.
Proof.
  intros Hfind Hp.
  pose proof (find_codex_cli_spawns w s) as Hs.
  destruct (find_codex_cli_spec w s) as (r & s1 & E & _ & Ha & He & Hhit & _).
  rewrite E in Hfind, Hs. simpl in Hfind, Hs. inversion Hfind; subst r.
  specialize (Hhit Hp).
  rewrite (check_codex_installation_run w s _ s1 E). simpl. rewrite Hp.
  unfold version_probe. rewrite He.
  eexists _, _. split; [reflexivity |].
  rewrite spawns_record, Hs. simpl.
  destruct (run w _ (environ s) None 10) as [result | e]; by split_and!.
Qed.

Lemma check_codex_installation_found_witness :
  exists d s', check_codex_installation versioned_world
                 (__init__ versioned_world no_params ∅) = (Return d, s')
    /\ d !! "installed" = Some (VBool true)
    /\ d !! "path" = Some (VStr "/usr/bin/codex")
    /\ d !! "version"
       = Some (VStr (version_of (version_probe versioned_world "/usr/bin/codex"
                                   (__init__ versioned_world no_params ∅))))
    /\ d !! "error"
       = match version_probe versioned_world "/usr/bin/codex"
                 (__init__ versioned_world no_params ∅) with
         | Return _ => None
         | Raise e => Some (VStr (exn_str e))
         end
    /\ d !! "message" = None
    /\ spawns s'
       = spawns (__init__ versioned_world no_params ∅)
         ++ [["/usr/bin/codex"; "--version"]]
    /\ _codex_path s' = Some "/usr/bin/codex"
    /\ _authenticated s' = _authenticated (__init__ versioned_world no_params ∅)
    /\ environ s' = environ (__init__ versioned_world no_params ∅).
Proof.
  exact (check_codex_installation_found versioned_world
           (__init__ versioned_world no_params ∅) "/usr/bin/codex"
           eq_refl eq_refl).
Defined.

(** X21: the path the installation check reports is the path of every
    command built afterwards: once a check has answered with a path, the
    builder lays its command out on that path for any prompt, on any
    machine, without a look at the machine. *)
Theorem check_codex_installation_then_build w s d s1 codex_path :
  check_codex_installation w s = (Return d, s1) ->
  d !! "path" = Some (VStr codex_path) ->
  forall w' prompt,
    _build_command w' prompt s1 = (Return (argv_of codex_path s prompt), s1).
Proof.
  intros Hcheck Hpath w' prompt.
  destruct (find_codex_cli_spec w s) as (r & s0 & E & [C _ _ _] & _ & _ & Hhit & _).
  rewrite (check_codex_installation_run w s r s0 E) in Hcheck.
  destruct (opt_truthy r) eqn:Hr.
  2:{ inversion Hcheck; subst. discriminate Hpath. }
  specialize (Hhit eq_refl).
  destruct r as [p |]; [| discriminate Hr]. simpl in Hr, Hcheck.
  assert (p = codex_path) as ->.
  { destruct (version_probe w p s0); inversion Hcheck; subst;
      by inversion Hpath. }
  inversion Hcheck; subst s1.
  rewrite <- (argv_of_config codex_path s s0 prompt C).
  change (argv_of codex_path s0 prompt)
    with (argv_of codex_path (record (Spawn [codex_path; "--version"] 10) s0) prompt).
  by apply build_command_cached.
Qed.

Lemma check_codex_installation_then_build_witness :
  _build_command bare_world "hi"
    (snd (check_codex_installation versioned_world
            (__init__ versioned_world no_params ∅)))
  = (Return ["/usr/bin/codex"; "exec"; "--json"; "--model"; "o4-mini";
             "--sandbox"; "read-only"; "--cd"; "/srv"; "hi"],
     snd (check_codex_installation versioned_world
            (__init__ versioned_world no_params ∅))).
Proof.
  exact (check_codex_installation_then_build versioned_world
           (__init__ versioned_world no_params ∅) _ _ "/usr/bin/codex"
           eq_refl eq_refl bare_world "hi").
Defined.

(** ** Of [get_icon] *)

(** X22: the icon is never missing: [get_icon] never raises and never
    answers a blank text; it answers the content of the icon file next to
    the module when that can be read and is not blank, and the built-in
    drawing otherwise; the adapter is left as it was but for the log. *)
Theorem get_icon_never_blank (f : IconFiles) (s : State) :
  exists icon s', get_icon f s = (Return icon, s')
    /\ icon = icon_of (read_text f (path_join f (module_dir f) "icon.svg"))
    /\ truthy (strip icon) = true
    /\ same_config s s'
    /\ _authenticated s' = _authenticated s
    /\ _codex_path s' = _codex_path s
    /\ environ s' = environ s
    /\ spawns s' = spawns s.
Proof.
  unfold get_icon, icon_of. run_monad.
  destruct (read_text f _) as [content | e]; simpl.
  - destruct (truthy (strip content)) eqn:Hc; simpl;
      eexists _, s; (split; [reflexivity |]);
      split_and!; auto using same_config_refl.
  - eexists _, _. split; [reflexivity |].
    split_and!; auto using same_config_refl.
    + by vm_compute.
    + rewrite spawns_record. simpl. apply app_nil_r.
Qed.

(** ** Of [get_connection_data] and [__init__] *)

(** X23: the connection form and the constructor agree: every field of the
    form names an attribute of the adapter; on an adapter made with no
    parameters that attribute holds the default the form shows for the
    field, where it shows one, and a value among the choices the form
    lists for the field, where it lists choices. *)
Theorem connection_form_agrees w env field :
  field ∈ fields get_connection_data ->
  exists v, attribute (f_name field) (__init__ w no_params env) = Some v
    /\ (f_default field = None \/ f_default field = Some v)
    /\ offers field v.
Proof.
  intros H. unfold get_connection_data, fields in H.
  repeat (apply elem_of_cons in H as [-> | H]);
    [.. | by apply elem_of_nil in H];
    (eexists; split; [reflexivity |]); (split; [auto |]);
    unfold offers; cbn [f_options]; try done;
    eexists _, _; (split; [reflexivity |]); apply elem_of_cons; by left.
Qed.

Lemma connection_form_agrees_witness :
  exists v, attribute "timeout" (__init__ bare_world no_params ∅) = Some v
    /\ (Some (VInt 300) = None \/ Some (VInt 300) = Some v)
    /\ True.
Proof.
  refine (connection_form_agrees bare_world ∅
            {| f_name := "timeout"; f_type := "number";
               f_label := "Timeout (seconds)"; f_required := false;
               f_default := Some (VInt 300);
               f_description := Some "Maximum time to wait for Codex response";
               f_options := None; f_depends_on := None |} _).
  unfold get_connection_data, fields.
  do 5 (apply elem_of_cons; right). apply elem_of_cons. by left.
Defined.

(** ** Of a configuration that cannot authenticate *)

(** X24: an adapter whose configuration admits neither way of
    authenticating, api_key mode without a credential or a method other
    than the two, never authenticates: on every state of its life the flag
    is down, and every message is answered with the authentication error
    without a child being started. *)
Theorem never_authenticates s0 s :
  can_authenticate s0 = false ->
  _authenticated s0 = false ->
  reachable s0 s ->
  _authenticated s = false
  /\ forall w message,
       exists d s', _process_message w message s = (Return d, s')
         /\ d !! "error" = Some (VBool true)
         /\ d !! "error_type" = Some (VStr "authentication_error")
         /\ d !! "original_message" = Some (VStr (prompt_of message))
         /\ _authenticated s' = false
         /\ spawns s' = spawns s.
Proof.
  intros Hcan Hflag Hreach.
  pose proof (reachable_evolves _ _ Hreach) as [C _ Hset _].
  assert (forall s', evolves s s' -> _authenticated s' = false) as Hdown.
  { intros s' Hev.
    destruct (_authenticated s') eqn:Hs'; [| done].
    pose proof (evolves_trans _ _ _ (reachable_evolves _ _ Hreach) Hev) as [_ _ Hset' _].
    destruct (Hset' Hs') as [Hup | [Hup _]]; congruence. }
  split; [apply Hdown, evolves_refl |].
  intros w message.
  destruct (ensure_authenticated_spec w s) as (b & s1 & E & Hev & Hb & _).
  assert (b = Return false) as ->.
  { destruct b as [[|] | e]; [| done |].
    - specialize (Hb eq_refl). by rewrite (Hdown s1 Hev) in Hb.
    - apply ensure_authenticated_raises in E as (_ & _ & H & _).
      apply can_authenticate_api_key in H.
      rewrite (can_authenticate_config _ _ C) in H. congruence. }
  eexists _, s1. split; [apply (process_message_auth_failed _ _ _ _ E) |].
  split_and!; try done; [by apply Hdown |].
  pose proof (ensure_authenticated_quiet w s) as Hq. rewrite E in Hq. apply Hq.
  intros Hmode.
  rewrite <- (can_authenticate_config _ _ C) in Hcan.
  unfold can_authenticate in Hcan. rewrite Hmode in Hcan.
  by rewrite orb_true_r in Hcan.
Qed.

Lemma never_authenticates_witness :
  _authenticated (snd (_ensure_authenticated idle_world
                         (__init__ idle_world keyless_params ∅))) = false
  /\ forall w message,
       exists d s', _process_message w message
                      (snd (_ensure_authenticated idle_world
                              (__init__ idle_world keyless_params ∅)))
                    = (Return d, s')
         /\ d !! "error" = Some (VBool true)
         /\ d !! "error_type" = Some (VStr "authentication_error")
         /\ d !! "original_message" = Some (VStr (prompt_of message))
         /\ _authenticated s' = false
         /\ spawns s'
            = spawns (snd (_ensure_authenticated idle_world
                             (__init__ idle_world keyless_params ∅))).
Proof.
  exact (never_authenticates (__init__ idle_world keyless_params ∅) _
           eq_refl eq_refl
           (reach_call _ idle_world Call_ensure_authenticated _ (reach_init _))).
Defined.
